(** * HyperETH SDK: the WebSocket session layer

    A shallow embedding of [hypereth_sdk/websocket_client.py] (class
    [WebSocketClient]) and of the WebSocket methods of
    [hypereth_sdk/hyperliquid/client.py] (class [HyperLiquidClient]),
    followed by the facades built on them: the metadata caches of
    [HyperLiquidClient.get_meta], the stream subscriptions of
    [hypereth_sdk/asterdex/client.py] (class [AsterDexClient]),
    [HyperETHClient.submit_trade_intent_ws] of [hypereth_sdk/api.py], and
    the request URL of [hypereth_sdk/http_client.py].

    The program is single-threaded asyncio code.  A coroutine runs without
    interruption between two suspension points, so every stretch of code
    between two [await]s is a function on the state of the program, and
    the interleaving of the receive loop with the callers is a list of
    events.  The state holds the client instance, the objects it shares
    with its callers (futures and request dictionaries, both by
    reference), the frames written to the socket, and the caller tasks. *)

From Stdlib Require Import ZArith String List Lia.
From Stdlib Require Import Floats.SpecFloat.
From stdpp Require Import gmap strings list fin_maps pretty.

Set Warnings "-register-all".
Open Scope Z_scope.

(** ** Decoded JSON values

    What [json.loads] returns: [None], [bool], [int], [float], [str],
    [list] and [dict] with string keys.  A Python [int] is unbounded, a
    Python [float] is an IEEE double. *)

Inductive json :=
| JNull
| JBool (b : bool)
| JInt (z : Z)
| JFloat (f : spec_float)
| JStr (s : string)
| JArr (l : list json)
| JObj (m : gmap string json).

Abbreviation obj := (gmap string json).

(** The outcome of [json.loads(message)] on a received frame: a value, or
    [json.JSONDecodeError]. *)
Inductive frame :=
| Malformed
| Parsed (data : json).

(** ** Exceptions *)

(** An f-string: literal text and interpolated values, in order. *)
Inductive fpart :=
| Lit (s : string)
| Val (v : json).

Inductive exn :=
| APIError (msg : list fpart)          (* hypereth_sdk.exceptions.APIError *)
| PyException (msg : list fpart)       (* Exception("...") *)
| TimeoutError                         (* asyncio.TimeoutError *)
| CancelledError                       (* asyncio.CancelledError *)
| ConnectionClosed                     (* websockets.exceptions.ConnectionClosed *)
| AttributeError
| TypeError
| KeyError.

(** [isinstance(e, Exception)].  [asyncio.CancelledError] derives from
    [BaseException] on every interpreter the package supports
    ([python_requires=">=3.8"]); everything else here is an [Exception]. *)
Definition is_Exception (e : exn) : bool :=
  match e with
  | CancelledError => false
  | _ => true
  end.

Inductive result (A : Type) :=
| Ok (a : A)
| Raise (e : exn).
Arguments Ok {A} a.
Arguments Raise {A} e.

#[global] Instance result_ret : MRet result := @Ok.
#[global] Instance result_bind : MBind result := λ A B f r,
  match r with
  | Ok a => f a
  | Raise e => Raise e
  end.
#[global] Instance result_fmap : FMap result := λ A B f r,
  match r with
  | Ok a => Ok (f a)
  | Raise e => Raise e
  end.

(** Python's [str()] on the values whose rendering does not depend on the
    order of a dict or on float printing; [other] renders the rest. *)
Definition py_str (other : json → string) (v : json) : string :=
  match v with
  | JNull => "None"
  | JBool true => "True"
  | JBool false => "False"
  | JInt z => pretty z
  | JStr s => s
  | _ => other v
  end.

Definition render_part (other : json → string) (p : fpart) : string :=
  match p with
  | Lit s => s
  | Val v => py_str other v
  end.

Definition render (other : json → string) (msg : list fpart) : string :=
  foldr (λ p acc, render_part other p +:+ acc) "" msg.

(** ** Operations on decoded values *)

(** [d.get(k, default)]: only a dict has [get]. *)
Definition py_get (d : json) (k : string) (dflt : json) : result json :=
  match d with
  | JObj m => Ok (default dflt (m !! k))
  | _ => Raise AttributeError
  end.

(** [v == s] for a string literal [s]. *)
Definition py_eq_str (v : json) (s : string) : bool :=
  match v with
  | JStr s' => bool_decide (s' = s)
  | _ => false
  end.

(** [d[k]] for a string [k]. *)
Definition py_getitem (d : json) (k : string) : result json :=
  match d with
  | JObj m => match m !! k with Some v => Ok v | None => Raise KeyError end
  | _ => Raise TypeError
  end.

(** [k in c] for a string [k]: key of a dict, element of a list, substring
    of a string; the other values are not containers. *)
Definition py_contains (c : json) (k : string) : result bool :=
  match c with
  | JObj m => Ok (bool_decide (is_Some (m !! k)))
  | JArr l => Ok (existsb (λ x, py_eq_str x k) l)
  | JStr s => Ok (bool_decide (is_Some (String.index 0 k s)))
  | _ => Raise TypeError
  end.

(** [for x in c]: the elements of a list, the keys of a dict, the
    characters of a string. *)
Definition py_iter (c : json) : result (list json) :=
  match c with
  | JArr l => Ok l
  | JObj m => Ok (JStr <$> (map_to_list m).*1)
  | JStr s => Ok ((λ a, JStr (String a EmptyString)) <$> list_ascii_of_string s)
  | _ => Raise TypeError
  end.

(** The integer a float is equal to, if any ([1.0 == 1]). *)
Definition float_int (f : spec_float) : option Z :=
  match f with
  | S754_zero _ => Some 0
  | S754_finite sign m e =>
      let mag :=
        if bool_decide (0 ≤ e) then Some (Z.pos m * 2 ^ e)
        else if bool_decide (Z.pos m mod 2 ^ (- e) = 0)
             then Some (Z.pos m / 2 ^ (- e)) else None in
      (λ n, if sign then - n else n) <$> mag
  | _ => None
  end.

(** The key of [Dict[int, Future]] that a decoded value selects.  Lookup
    goes by [hash] and [==]: [True == 1], [False == 0], an integral float
    equals its integer, [None] and strings equal no integer, and lists and
    dicts are unhashable ([TypeError]). *)
Definition py_int_key (v : json) : result (option Z) :=
  match v with
  | JNull => Ok None
  | JBool b => Ok (Some (if b then 1 else 0))
  | JInt z => Ok (Some z)
  | JFloat f => Ok (float_int f)
  | JStr _ => Ok None
  | JArr _ | JObj _ => Raise TypeError
  end.

(** [v == n] for an integer [n]. *)
Definition py_eq_int (v : json) (n : Z) : bool :=
  match py_int_key v with
  | Ok (Some k) => bool_decide (k = n)
  | _ => false
  end.

(** ** State *)

Inductive connection := Open | Closed.

(** An [asyncio.Future]. *)
Inductive future :=
| Pending
| FResult (v : json)
| FException (e : exn)
| FCancelled.

Definition done (f : future) : bool :=
  match f with
  | Pending => false
  | _ => true
  end.

(** The attributes of a [WebSocketClient] that the code reads after
    [__init__]; [pending_requests] maps a request id to a reference to its
    future. *)
Record WebSocketClient := mkClient {
  websocket : option connection;
  running : bool;
  request_counter : Z;
  pending_requests : gmap Z nat;
}.

(** A call of [send_request], seen from outside. *)
Inductive task :=
| Waiting (request_id : Z) (fut : nat)   (* suspended in asyncio.wait_for *)
| Returned (response : json)
| Raised (e : exn).

Record world := mkWorld {
  ws : WebSocketClient;
  futures : list future;        (* the Future objects, by reference *)
  dicts : list obj;             (* the callers' request dicts, by reference *)
  wire : list json;             (* frames passed to websocket.send, oldest first *)
  handler : bool;               (* the _message_handler task is alive *)
  tasks : list task;
}.

Definition with_ws (f : WebSocketClient → WebSocketClient) (s : world) : world :=
  mkWorld (f (ws s)) (futures s) (dicts s) (wire s) (handler s) (tasks s).
Definition with_futures (f : list future → list future) (s : world) : world :=
  mkWorld (ws s) (f (futures s)) (dicts s) (wire s) (handler s) (tasks s).
Definition with_dicts (f : list obj → list obj) (s : world) : world :=
  mkWorld (ws s) (futures s) (f (dicts s)) (wire s) (handler s) (tasks s).
Definition with_wire (f : list json → list json) (s : world) : world :=
  mkWorld (ws s) (futures s) (dicts s) (f (wire s)) (handler s) (tasks s).
Definition with_handler (b : bool) (s : world) : world :=
  mkWorld (ws s) (futures s) (dicts s) (wire s) b (tasks s).
Definition with_tasks (f : list task → list task) (s : world) : world :=
  mkWorld (ws s) (futures s) (dicts s) (wire s) (handler s) (f (tasks s)).

Definition set_websocket (w : option connection) (c : WebSocketClient) :=
  mkClient w (running c) (request_counter c) (pending_requests c).
Definition set_running (b : bool) (c : WebSocketClient) :=
  mkClient (websocket c) b (request_counter c) (pending_requests c).
Definition set_request_counter (n : Z) (c : WebSocketClient) :=
  mkClient (websocket c) (running c) n (pending_requests c).
Definition with_pending (f : gmap Z nat → gmap Z nat) (c : WebSocketClient) :=
  mkClient (websocket c) (running c) (request_counter c) (f (pending_requests c)).

(** [WebSocketClient.__init__], and a program that has just built one. *)
Definition __init__ : WebSocketClient :=
  mkClient None false 0 ∅.

Definition initial : world :=
  mkWorld __init__ [] [] [] false [].

(** ** The socket *)

(** [await self.websocket.send(json.dumps(frame))]: the text is fixed when
    it is written, so the wire holds a copy of the value; a closed
    connection raises [ConnectionClosed]. *)
Definition websocket_send (s : world) (frm : json) : world * result () :=
  match websocket (ws s) with
  | Some Open => (with_wire (λ w, w ++ [frm]) s, Ok ())
  | Some Closed => (s, Raise ConnectionClosed)
  | None => (s, Raise AttributeError)
  end.

(** ** The receive side: [_process_message] *)

(** The branch of [_process_message] a frame took. *)
Inductive outcome :=
| Resolved (request_id : Z)        (* popped, future.set_result *)
| AlreadyDone (request_id : Z)     (* popped, future was done: nothing set *)
| UnknownRequest                   (* logger.warning: unknown request ID *)
| OrderUpdates
| SubscriptionConfirmed
| AllMids
| ChannelUpdate
| Unclassified
| ParseFailure                     (* except json.JSONDecodeError *)
| ProcessingError (e : exn).       (* except Exception *)

Definition future_done (s : world) (fut : nat) : bool :=
  match futures s !! fut with
  | Some f => done f
  | None => true
  end.

(** The [if data.get("channel") == "post":] branch.  Every operation that
    can raise comes before the first change of state.  The lines that
    read [data.get("request_id")] only choose between two log messages. *)
Definition process_post (s : world) (data : json) : result (world * outcome) :=
  response_data ← py_get data "data" (JObj ∅);
  request_id ← py_get response_data "id" JNull;
  key ← py_int_key request_id;                (* request_id in self.pending_requests *)
  match key ≫= λ k, (k,.) <$> pending_requests (ws s) !! k with
  | Some (k, fut) =>
      let s1 := with_ws (with_pending (delete k)) s in      (* .pop(request_id) *)
      if future_done s1 fut then Ok (s1, AlreadyDone k)
      else Ok (with_futures <[fut := FResult response_data]> s1, Resolved k)
  | None => Ok (s, UnknownRequest)
  end.

(** The body of one turn of [for order_update in order_data]. *)
Definition order_update_step (order_update : json) : result () :=
  order_info ← py_get order_update "order" (JObj ∅);
  _ ← py_get order_update "status" (JStr "unknown");
  _ ← py_get order_info "oid" (JStr "unknown");
  Ok ().

Fixpoint for_each (body : json → result ()) (l : list json) : result () :=
  match l with
  | [] => Ok ()
  | x :: l' => _ ← body x; for_each body l'
  end.

Definition process_order_updates (data : json) : result outcome :=
  order_data ← py_get data "data" (JArr []);
  items ← py_iter order_data;
  _ ← for_each order_update_step items;
  Ok OrderUpdates.

Definition process_subscription_response (data : json) : result outcome :=
  subscription_data ← py_get data "data" (JObj ∅);
  _ ← py_get subscription_data "method" (JStr "unknown");
  subscription ← py_get subscription_data "subscription" (JObj ∅);
  _ ← py_get subscription "type" (JStr "unknown");
  Ok SubscriptionConfirmed.

Definition process_channel_update (data : json) : result outcome :=
  channel ← py_get data "channel" JNull;
  if py_eq_str channel "allMids" then
    d ← py_getitem data "data";
    mids_data ← py_getitem d "mids";
    has_eth ← py_contains mids_data "ETH";
    if has_eth : bool then _ ← py_getitem mids_data "ETH"; Ok AllMids
    else Ok AllMids
  else Ok ChannelUpdate.

(** The [try] block of [_process_message], after [json.loads]. *)
Definition process_body (s : world) (data : json) : result (world * outcome) :=
  channel ← py_get data "channel" JNull;
  if py_eq_str channel "post" then process_post s data
  else if py_eq_str channel "orderUpdates" then (s,.) <$> process_order_updates data
  else if py_eq_str channel "subscriptionResponse"
       then (s,.) <$> process_subscription_response data
  else
    has_channel ← py_contains data "channel";
    if has_channel : bool then (s,.) <$> process_channel_update data
    else Ok (s, Unclassified).

(** [_process_message]: [except json.JSONDecodeError] and
    [except Exception] log and return; anything else propagates. *)
Definition _process_message (s : world) (message : frame) : result (world * outcome) :=
  match message with
  | Malformed => Ok (s, ParseFailure)
  | Parsed data =>
      match process_body s data with
      | Ok r => Ok r
      | Raise e => if is_Exception e then Ok (s, ProcessingError e) else Raise e
      end
  end.

(** ** The receive loop: [_message_handler] *)

(** The [finally] block: fail what is still pending, clear the table. *)
Definition fail_pending (fut : nat) (fs : list future) : list future :=
  match fs !! fut with
  | Some Pending => <[fut := FException (PyException [Lit "Connection closed"])]> fs
  | _ => fs
  end.

Definition handler_finally (s : world) : world :=
  let futs := (map_to_list (pending_requests (ws s))).*2 in
  with_handler false
    (with_ws (with_pending (λ _, ∅))
       (with_futures (λ fs, foldr fail_pending fs futs) s)).

(** [while self.running and self.websocket]: the test the loop makes
    before it suspends in [recv] again.  When it fails the loop is left
    through the [finally] block. *)
Definition while_test (s : world) : world :=
  if running (ws s) && bool_decide (is_Some (websocket (ws s))) then s
  else handler_finally s.

(** What an exception does inside the loop body: [ConnectionClosed] breaks
    out of the loop, another [Exception] is logged and the loop goes
    round, anything else leaves through the [finally] block. *)
Definition handler_except (s : world) (e : exn) : world :=
  match e with
  | ConnectionClosed => handler_finally s
  | _ => if is_Exception e then while_test s else handler_finally s
  end.

(** One turn of the loop, from the moment [await self.websocket.recv()]
    delivers to the next suspension in [recv] or to the end of the loop.
    The loop condition was tested before the suspension, not when [recv]
    delivers: what is delivered is processed whatever [running] has
    become in the meantime, and the condition is tested afterwards.  (A
    loop that finds the condition false on its very first test does what
    a [ConnectionClosed] does here.) *)
Definition _message_handler (s : world) (recv : result frame) : world :=
  match recv with
  | Ok message =>
      match _process_message s message with
      | Ok (s', _) => while_test s'
      | Raise e => handler_except s e
      end
  | Raise e => handler_except s e
  end.

(** ** The caller side: [send_request] *)

(** [not self.websocket or not self.running], negated. *)
Definition connected (c : WebSocketClient) : bool :=
  bool_decide (is_Some (websocket c)) && running c.

Definition pop (request_id : Z) (s : world) : world :=
  with_ws (with_pending (delete request_id)) s.

(** The [except] clauses of [send_request]:
    [except asyncio.TimeoutError] pops and raises [APIError];
    [except Exception] pops and re-raises; what is not an [Exception]
    passes through both. *)
Definition send_request_except (s : world) (request_id : Z) (e : exn) : world * exn :=
  match e with
  | TimeoutError =>
      (pop request_id s,
       APIError [Lit "Request "; Val (JInt request_id); Lit " timed out"])
  | _ => if is_Exception e then (pop request_id s, e) else (s, e)
  end.

Definition finish (s : world) (request_id : Z) (r : result json) : world * task :=
  match r with
  | Ok response => (s, Returned response)
  | Raise e => let '(s', e') := send_request_except s request_id e in (s', Raised e')
  end.

(** [if "id" not in request: request["id"] = request_id] *)
Definition add_id (request_id : Z) (d : obj) : obj :=
  if bool_decide (is_Some (d !! "id")) then d else <["id" := JInt request_id]> d.

(** [send_request(request)] from its first line to the suspension inside
    [asyncio.wait_for].  [request] is a reference to the caller's dict;
    the result is [None] only for a dangling reference.  The write to the
    socket is taken to complete, or to fail, without another task running
    in between. *)
Definition send_request_start (s : world) (request : nat) : option (world * task) :=
  d ← dicts s !! request;
  if negb (connected (ws s)) then
    Some (s, Raised (APIError [Lit "WebSocket not connected"]))
  else
    let request_id := request_counter (ws s) + 1 in
    let s1 := with_ws (set_request_counter request_id) s in
    let d' := add_id request_id d in
    let s2 := with_dicts <[request := d']> s1 in
    let fut := length (futures s2) in
    let s3 := with_ws (with_pending <[request_id := fut]>)
                (with_futures (λ fs, fs ++ [Pending]) s2) in
    match websocket_send s3 (JObj d') with
    | (s4, Ok _) => Some (s4, Waiting request_id fut)
    | (s4, Raise e) => Some (finish s4 request_id (Raise e))
    end.

(** How a caller suspended in [asyncio.wait_for(future, timeout)] resumes:
    its future is done, its timeout elapses first, or its task is
    cancelled from outside first. *)
Inductive wake := FutureDone | TimedOut | Cancellation.

(** [wait_for] cancels the future it waits on when it times out or is
    cancelled. *)
Definition wait_for (s : world) (fut : nat) (w : wake) : option (world * result json) :=
  f ← futures s !! fut;
  match w, f with
  | FutureDone, FResult v => Some (s, Ok v)
  | FutureDone, FException e => Some (s, Raise e)
  | FutureDone, FCancelled => Some (s, Raise CancelledError)
  | TimedOut, Pending => Some (with_futures <[fut := FCancelled]> s, Raise TimeoutError)
  | Cancellation, Pending => Some (with_futures <[fut := FCancelled]> s, Raise CancelledError)
  | _, _ => None
  end.

(** [# Check for error response] *)
Definition check_response (response : json) : result json :=
  resp ← py_get response "response" (JObj ∅);
  ty ← py_get resp "type" JNull;
  if py_eq_str ty "error" then
    error_msg ← py_get resp "payload" (JStr "Unknown error");
    Raise (APIError [Lit "API Error: "; Val error_msg])
  else Ok response.

(** [send_request] from the resumption of [wait_for] to its exit. *)
Definition send_request_resume (s : world) (request_id : Z) (fut : nat) (w : wake)
  : option (world * task) :=
  '(s1, r) ← wait_for s fut w;
  Some (finish s1 request_id (r ≫= check_response)).

(** ** [connect] and [disconnect] *)

(** [connect]: [failure] is the text of the exception of
    [websockets.connect], if it raises. *)
Definition connect (s : world) (failure : option string) : world * result () :=
  match failure with
  | None =>
      (with_handler true
         (with_ws (λ c, set_running true (set_websocket (Some Open) c)) s), Ok ())
  | Some e => (s, Raise (APIError [Lit "WebSocket connection failed: "; Lit e]))
  end.

(** [disconnect] from its first line to its suspension in
    [await self.websocket.close()]; without a connection, the whole
    call. *)
Definition disconnect (s : world) : world :=
  let s1 := with_ws (set_running false) s in
  match websocket (ws s1) with
  | Some _ => with_ws (set_websocket (Some Closed)) s1
  | None => s1
  end.

(** The whole of [await disconnect()].  [disconnect] above is the call up
    to its suspension in [await self.websocket.close()].  [close()]
    returns when the connection is closed, and by then the receive loop,
    which was suspended in [recv], has been resumed one last time: with a
    frame that was still on its way, or with [ConnectionClosed].  With
    [running] cleared that turn is the loop's last.  Without a connection
    the call does not wait, and without a receive loop there is nothing
    to resume.  (As for [send], no other task is taken to run in
    between.) *)
Definition disconnect_call (s : world) (recv : result frame) : world :=
  let s1 := disconnect s in
  if bool_decide (is_Some (websocket (ws s))) && handler s1
  then _message_handler s1 recv
  else s1.

(** ** [HyperLiquidClient]: the WebSocket methods

    [self.ws_client] is the client of the world.  These methods read and
    write no other attribute of the facade. *)

(** [if params:] *)
Definition truthy (params : option obj) : bool :=
  match params with
  | Some p => negb (bool_decide (size p = 0%nat))
  | None => false
  end.

Definition control_frame (method channel : string) (params : option obj) : json :=
  let subscription : obj := {["type" := JStr channel]} in
  let subscription :=
    if truthy params then default ∅ params ∪ subscription    (* .update(params) *)
    else subscription in
  JObj {["method" := JStr method; "subscription" := JObj subscription]}.

Definition send_control (s : world) (method channel : string) (params : option obj)
  : world * result () :=
  if bool_decide (is_Some (websocket (ws s))) then
    websocket_send s (control_frame method channel params)
  else (s, Raise (APIError [Lit "WebSocket not connected"])).

Definition subscribe_to_channel (s : world) (channel : string) (params : option obj) :=
  send_control s "subscribe" channel params.

Definition unsubscribe_from_channel (s : world) (channel : string) (params : option obj) :=
  send_control s "unsubscribe" channel params.

(** [send_ws_info_request(payload)]: the request dict is built afresh. *)
Definition info_request (payload : json) : obj :=
  {["method" := JStr "post";
    "request" := JObj {["type" := JStr "info"; "payload" := payload]}]}.

(** Its last line, applied to what [send_request] produced. *)
Definition send_ws_info_request_return (r : result json) : result json :=
  response ← r;
  resp ← py_get response "response" (JObj ∅);
  py_get resp "payload" (JObj ∅).

(** ** Interleavings *)

Inductive event :=
| EConnect (failure : option string)
| EDisconnect                               (* disconnect() runs up to its await *)
| ERemoteClose                              (* the peer closes the connection *)
| ENewDict (d : obj)                        (* a caller builds a request dict *)
| ECall (request : nat)                     (* a new task calls send_request *)
| EWake (t : nat) (w : wake)                (* task t resumes from wait_for *)
| ERecv (recv : result frame)               (* one turn of the receive loop *)
| ESubscribe (channel : string) (params : option obj)
| EUnsubscribe (channel : string) (params : option obj).

(** One atomic stretch of the program; [None] when the event cannot happen
    in this state.  [connect] is taken only while no receive loop is
    alive. *)
Definition step (s : world) (ev : event) : option world :=
  match ev with
  | EConnect failure =>
      if handler s then None else Some (connect s failure).1
  | EDisconnect => Some (disconnect s)
  | ERemoteClose =>
      match websocket (ws s) with
      | Some Open => Some (with_ws (set_websocket (Some Closed)) s)
      | _ => None
      end
  | ENewDict d => Some (with_dicts (λ ds, ds ++ [d]) s)
  | ECall request =>
      '(s', t) ← send_request_start s request;
      Some (with_tasks (λ ts, ts ++ [t]) s')
  | EWake t w =>
      match tasks s !! t with
      | Some (Waiting request_id fut) =>
          '(s', t') ← send_request_resume s request_id fut w;
          Some (with_tasks <[t := t']> s')
      | _ => None
      end
  | ERecv recv =>
      if handler s then Some (_message_handler s recv) else None
  | ESubscribe channel params => Some (subscribe_to_channel s channel params).1
  | EUnsubscribe channel params => Some (unsubscribe_from_channel s channel params).1
  end.

Fixpoint run (s : world) (evs : list event) : option world :=
  match evs with
  | [] => Some s
  | ev :: evs' => s' ← step s ev; run s' evs'
  end.

(** The worlds a program can be in. *)
Definition reachable (s : world) : Prop := ∃ evs, run initial evs = Some s.

(** The id [send_request] assigns to a call ([request_id =
    self.request_counter]), for a call that gets past the connection
    check. *)
Definition assigned_id (s : world) (ev : event) : option Z :=
  match ev with
  | ECall request =>
      '(s', _) ← send_request_start s request;
      if connected (ws s) then Some (request_counter (ws s')) else None
  | _ => None
  end.






(** * The facades *)

(** ** [HyperLiquidClient.send_ws_exchange_request] *)

(** The request dict of [send_ws_exchange_request(payload)]. *)
Definition exchange_request (payload : json) : obj :=
  {["method" := JStr "post";
    "request" := JObj {["type" := JStr "action"; "payload" := payload]}]}.

(** Its last line, applied to what [send_request] produced. *)
Definition send_ws_exchange_request_return (r : result json) : result json :=
  response ← r;
  resp ← py_get response "response" (JObj ∅);
  py_get resp "payload" (JObj ∅).

(** ** [HyperLiquidClient.get_meta]: the metadata caches *)

(** [bool(v)] *)
Definition py_truthy (v : json) : bool :=
  match v with
  | JNull => false
  | JBool b => b
  | JInt z => negb (bool_decide (z = 0))
  | JFloat (S754_zero _) => false
  | JFloat _ => true
  | JStr s => negb (bool_decide (s = ""%string))
  | JArr l => negb (bool_decide (l = []))
  | JObj m => negb (bool_decide (size m = 0%nat))
  end.

(** The key a decoded value is as a key of a dict: values that are equal
    ([True == 1 == 1.0]) are one key, lists and dicts are unhashable. *)
Inductive pykey :=
| KNone
| KInt (z : Z)
| KFrac (neg : bool) (m : positive) (e : Z)   (* m * 2^e, m odd, e < 0 *)
| KInf (neg : bool)
| KNaN
| KStr (s : string).

#[global] Instance pykey_eq_dec : EqDecision pykey.
Proof. solve_decision. Defined.

#[global] Instance pykey_countable : Countable pykey.
Proof.
  refine (inj_countable'
    (λ k, match k with
          | KNone => inl (inl ())
          | KInt z => inl (inr z)
          | KFrac neg m e => inr (inl (neg, m, e))
          | KInf neg => inr (inr (inl neg))
          | KNaN => inr (inr (inr (inl ())))
          | KStr s => inr (inr (inr (inr s)))
          end)
    (λ x, match x with
          | inl (inl _) => KNone
          | inl (inr z) => KInt z
          | inr (inl (neg, m, e)) => KFrac neg m e
          | inr (inr (inl neg)) => KInf neg
          | inr (inr (inr (inl _))) => KNaN
          | inr (inr (inr (inr s))) => KStr s
          end) _).
  by intros [].
Defined.

(** [m * 2^e] with the factors of two moved out of [m]. *)
Fixpoint odd_part (m : positive) (e : Z) : positive * Z :=
  match m with
  | xO m' => odd_part m' (e + 1)
  | _ => (m, e)
  end.

Definition float_key (f : spec_float) : pykey :=
  match f with
  | S754_zero _ => KInt 0
  | S754_infinity neg => KInf neg
  | S754_nan => KNaN
  | S754_finite neg m e =>
      let '(m', e') := odd_part m e in
      if bool_decide (0 ≤ e')
      then KInt ((if neg then -1 else 1) * (Z.pos m' * 2 ^ e'))
      else KFrac neg m' e'
  end.

(** [hash(v)], as far as dict lookup goes. *)
Definition py_hash (v : json) : result pykey :=
  match v with
  | JNull => Ok KNone
  | JBool b => Ok (KInt (if b then 1 else 0))
  | JInt z => Ok (KInt z)
  | JFloat f => Ok (float_key f)
  | JStr s => Ok (KStr s)
  | JArr _ | JObj _ => Raise TypeError
  end.

(** The attributes of [HyperLiquidClient] that [get_meta] writes. *)
Record MetaCache := mkCache {
  asset_metadata : json;
  sz_decimals : gmap pykey json;
  asset_indices : gmap pykey Z;
}.

(** As [HyperLiquidClient.__init__] leaves them. *)
Definition empty_cache : MetaCache := mkCache (JObj ∅) ∅ ∅.

(** One turn of [for index, asset in enumerate(data["universe"])].  What
    was written before an exception stays written. *)
Definition cache_asset (index : Z) (asset : json) (c : MetaCache) : MetaCache * result () :=
  match py_get asset "name" JNull with
  | Raise e => (c, Raise e)
  | Ok asset_name =>
      if py_truthy asset_name then
        match py_get asset "szDecimals" (JInt 0), py_hash asset_name with
        | Ok sz, Ok key =>
            (mkCache (asset_metadata c) (<[key := sz]> (sz_decimals c))
                     (<[key := index]> (asset_indices c)), Ok ())
        | Raise e, _ => (c, Raise e)
        | Ok _, Raise e => (c, Raise e)
        end
      else (c, Ok ())
  end.

Fixpoint cache_assets (index : Z) (assets : list json) (c : MetaCache)
  : MetaCache * result () :=
  match assets with
  | [] => (c, Ok ())
  | asset :: rest =>
      match cache_asset index asset c with
      | (c', Ok _) => cache_assets (index + 1) rest c'
      | (c', Raise e) => (c', Raise e)
      end
  end.

(** [get_meta] from the arrival of the response [data] to its [return]:
    the body of the [try] block.  ([get_meta] itself re-raises an
    exception of this body as an [APIError].) *)
Definition get_meta_cache (data : json) (c : MetaCache) : MetaCache * result json :=
  match py_contains data "universe" with
  | Raise e => (c, Raise e)
  | Ok has_universe =>
      match (if has_universe : bool
             then universe ← py_getitem data "universe"; py_iter universe
             else Ok []) with
      | Raise e => (c, Raise e)
      | Ok assets =>
          match cache_assets 0 assets c with
          | (c', Ok _) => (mkCache data (sz_decimals c') (asset_indices c'), Ok data)
          | (c', Raise e) => (c', Raise e)
          end
      end
  end.

(** [self.asset_indices.get(asset, -1)], as [place_order_rest] and
    [place_order_ws] read it; [-1] makes them raise ["Unknown asset"]. *)
Definition asset_index (c : MetaCache) (asset : string) : Z :=
  default (-1) (asset_indices c !! KStr asset).

(** An asset as the venue lists it: a dict whose ["name"] is a string,
    [null] or absent. *)
Definition plain_asset (asset : json) : bool :=
  match asset with
  | JObj o =>
      match o !! "name" with
      | None | Some JNull | Some (JStr _) => true
      | _ => false
      end
  | _ => false
  end.

(** The name under which [get_meta] caches an asset, if it does. *)
Definition asset_name (asset : json) : option string :=
  match asset with
  | JObj o =>
      match o !! "name" with
      | Some (JStr n) => if bool_decide (n = ""%string) then None else Some n
      | _ => None
      end
  | _ => None
  end.

Definition asset_sz (asset : json) : json :=
  match asset with
  | JObj o => default (JInt 0) (o !! "szDecimals")
  | _ => JInt 0
  end.

Definition is_dict (v : json) : bool :=
  match v with
  | JObj _ => true
  | _ => false
  end.

(** The caches after [get_meta] has been called once for each of the
    responses [datas], whatever each call returned or raised. *)
Definition get_metas (datas : list json) (c : MetaCache) : MetaCache :=
  foldl (λ c data, (get_meta_cache data c).1) c datas.

(** The two caches are written together, and only with positions of a
    list. *)
Record cache_ok (c : MetaCache) : Prop := {
  same_keys : dom (sz_decimals c) = dom (asset_indices c);
  indices_nonneg : ∀ k i, asset_indices c !! k = Some i → 0 ≤ i;
}.

(** * [AsterDexClient]: the stream subscriptions *)

(** What [AsterDexClient] raises itself, and what comes out of the
    [WebSocketClient] underneath. *)
Inductive sdk_exn :=
| ValidationError (msg : string)
| Exn (e : exn).

Inductive market := Perp | Spot.

(** The attributes the WebSocket methods read and write.  Each socket
    client is a [WebSocketClient] with its own connection. *)
Record AsterDexClient := mkAster {
  hypereth_api_key : option string;
  perp_ws_client : option world;
  spot_ws_client : option world;
  _next_subscription_id : Z;
}.

Definition AsterDexClient__init__ (hypereth_api_key : option string) : AsterDexClient :=
  mkAster hypereth_api_key None None 1.

Definition ws_client (m : market) (a : AsterDexClient) : option world :=
  match m with
  | Perp => perp_ws_client a
  | Spot => spot_ws_client a
  end.

Definition set_ws_client (m : market) (w : option world) (a : AsterDexClient)
  : AsterDexClient :=
  match m with
  | Perp => mkAster (hypereth_api_key a) w (spot_ws_client a) (_next_subscription_id a)
  | Spot => mkAster (hypereth_api_key a) (perp_ws_client a) w (_next_subscription_id a)
  end.

Definition set_next_subscription_id (id : Z) (a : AsterDexClient) : AsterDexClient :=
  mkAster (hypereth_api_key a) (perp_ws_client a) (spot_ws_client a) id.

Definition set_api_key (api_key : string) (a : AsterDexClient) : AsterDexClient :=
  mkAster (Some api_key) (perp_ws_client a) (spot_ws_client a) (_next_subscription_id a).

(** [if not self.hypereth_api_key: raise ValidationError(...)] *)
Definition _require_api_key (a : AsterDexClient) : option sdk_exn :=
  match hypereth_api_key a with
  | Some k =>
      if bool_decide (k = ""%string)
      then Some (ValidationError "HyperETH API key is required for this operation")
      else None
  | None => Some (ValidationError "HyperETH API key is required for this operation")
  end.

Definition raised (r : result ()) : option sdk_exn :=
  match r with
  | Ok _ => None
  | Raise e => Some (Exn e)
  end.

(** [connect_perp_ws] and [connect_spot_ws]: the attribute holds the new
    [WebSocketClient] before its [connect] is awaited, so it keeps it when
    [connect] raises.  [failure] is as in [connect]. *)
Definition connect_ws (m : market) (failure : option string) (a : AsterDexClient)
  : AsterDexClient * option sdk_exn :=
  match _require_api_key a with
  | Some e => (a, Some e)
  | None =>
      let '(w, r) := connect initial failure in
      (set_ws_client m (Some w) a, raised r)
  end.

(** [{"method": method, "params": streams, "id": id}] *)
Definition stream_frame (method : string) (streams : json) (id : Z) : json :=
  JObj {["method" := JStr method; "params" := streams; "id" := JInt id]}.

(** The common end of the four stream methods: build the frame with the
    next id, increment the id, send. *)
Definition send_stream_frame (m : market) (method : string) (streams : json)
    (a : AsterDexClient) : AsterDexClient * option sdk_exn :=
  let frm := stream_frame method streams (_next_subscription_id a) in
  let a := set_next_subscription_id (_next_subscription_id a + 1) a in
  match ws_client m a with
  | Some w =>
      let '(w', r) := websocket_send w frm in
      (set_ws_client m (Some w') a, raised r)
  | None => (a, Some (Exn AttributeError))
  end.

(** [subscribe_perp_streams] and [subscribe_spot_streams]; [failure] is
    used if the method connects. *)
Definition subscribe_streams (m : market) (streams : json) (failure : option string)
    (a : AsterDexClient) : AsterDexClient * option sdk_exn :=
  let '(a, r) :=
    match ws_client m a with
    | None => connect_ws m failure a
    | Some _ => (a, None)
    end in
  match r with
  | Some e => (a, Some e)
  | None => send_stream_frame m "SUBSCRIBE" streams a
  end.

(** [unsubscribe_perp_streams] and [unsubscribe_spot_streams] *)
Definition unsubscribe_streams (m : market) (streams : json) (a : AsterDexClient)
  : AsterDexClient * option sdk_exn :=
  match ws_client m a with
  | None => (a, None)
  | Some w =>
      if bool_decide (is_Some (websocket (ws w)))
      then send_stream_frame m "UNSUBSCRIBE" streams a
      else (a, None)
  end.

Definition disconnect_ws (a : AsterDexClient) : AsterDexClient :=
  mkAster (hypereth_api_key a) (disconnect <$> perp_ws_client a)
          (disconnect <$> spot_ws_client a) (_next_subscription_id a).

(** What happens on a socket without a call of the client. *)
Inductive socket_event :=
| PeerClose
| Recv (recv : result frame).

Definition event_of (ev : socket_event) : event :=
  match ev with
  | PeerClose => ERemoteClose
  | Recv recv => ERecv recv
  end.

(** The calls of a program on one [AsterDexClient], each awaited before
    the next is made, and the events on its sockets in between. *)
Inductive aster_op :=
| AConnect (m : market) (failure : option string)
| ASubscribe (m : market) (streams : json) (failure : option string)
| AUnsubscribe (m : market) (streams : json)
| ADisconnect
| ASetApiKey (api_key : string)
| ASocket (m : market) (ev : socket_event).

(** An exception of a call goes to the caller; the client stays as the
    call left it. *)
Definition aster_step (a : AsterDexClient) (op : aster_op) : AsterDexClient :=
  match op with
  | AConnect m failure => (connect_ws m failure a).1
  | ASubscribe m streams failure => (subscribe_streams m streams failure a).1
  | AUnsubscribe m streams => (unsubscribe_streams m streams a).1
  | ADisconnect => disconnect_ws a
  | ASetApiKey api_key => set_api_key api_key a
  | ASocket m ev =>
      match ws_client m a with
      | Some w => set_ws_client m (Some (default w (step w (event_of ev)))) a
      | None => a
      end
  end.

Definition aster_run (a : AsterDexClient) (ops : list aster_op) : AsterDexClient :=
  foldl aster_step a ops.

(** The frames written to the socket of market [m] since it was created. *)
Definition sent (m : market) (a : AsterDexClient) : list json :=
  match ws_client m a with
  | Some w => wire w
  | None => []
  end.

Definition is_set_api_key (op : aster_op) : bool :=
  match op with
  | ASetApiKey _ => true
  | _ => false
  end.

(** What is on the two sockets: [SUBSCRIBE] and [UNSUBSCRIBE] frames
    only, their ids distinct and all handed out already. *)
Record streams_ok (a : AsterDexClient) : Prop := {
  next_positive : 1 ≤ _next_subscription_id a;
  sent_frames : ∃ perp spot : list (string * json * Z),
    sent Perp a = (λ f, stream_frame f.1.1 f.1.2 f.2) <$> perp
    ∧ sent Spot a = (λ f, stream_frame f.1.1 f.1.2 f.2) <$> spot
    ∧ Forall (λ f, f.1.1 = "SUBSCRIBE"%string ∨ f.1.1 = "UNSUBSCRIBE"%string)
             (perp ++ spot)
    ∧ NoDup ((perp ++ spot).*2)
    ∧ ∀ id, id ∈ (perp ++ spot).*2 → 1 ≤ id < _next_subscription_id a;
}.

(** * [HyperETHClient.submit_trade_intent_ws] *)

Inductive Exchange := HYPERLIQUID | ASTERDEX.

Definition Exchange_value (e : Exchange) : string :=
  match e with
  | HYPERLIQUID => "hyperliquid"
  | ASTERDEX => "asterdex"
  end.

(** [exchange: Union[Exchange, str]] *)
Inductive exchange_arg :=
| Member (e : Exchange)
| Name (s : string).

(** [exchange_str == "hyperliquid" or exchange == Exchange.HYPERLIQUID];
    a member of the enum is equal to no string. *)
Definition is_hyperliquid (exchange : exchange_arg) : bool :=
  let exchange_str :=
    match exchange with
    | Member e => Exchange_value e
    | Name s => s
    end in
  bool_decide (exchange_str = "hyperliquid"%string)
  || match exchange with
     | Member HYPERLIQUID => true
     | _ => false
     end.

Inductive built :=
| Payload (payload : json)
| Invalid (msg : string).     (* raise ValidationError(msg) *)

(** [# Build payload based on exchange type]; [kwargs] are the keyword
    arguments of the call. *)
Definition intent_payload (exchange : exchange_arg) (kwargs : obj) : built :=
  if is_hyperliquid exchange then
    match kwargs !! "action", kwargs !! "agent_wallet", kwargs !! "nonce" with
    | Some action, Some agent_wallet, Some nonce =>
        Payload (JObj {["hl_action" := action;
                        "hl_agent_wallet" := agent_wallet;
                        "nonce" := nonce]})
    | _, _, _ =>
        Invalid "HyperLiquid trade intent requires 'action', 'agent_wallet', and 'nonce'"
    end
  else Payload (JObj kwargs).

Definition intent_request (payload : json) : obj :=
  {["method" := JStr "post";
    "request" := JObj {["type" := JStr "trade_intent"; "payload" := payload]}]}.

(** [str(e)]: the message for the exceptions this package builds, [lib]
    for the text of the others. *)
Definition exn_str (lib : exn → list fpart) (e : exn) : list fpart :=
  match e with
  | APIError msg | PyException msg => msg
  | _ => lib e
  end.

(** [except Exception as e: raise APIError(f"Failed to submit trade intent
    via WS: {e}")] *)
Definition intent_except (lib : exn → list fpart) (e : sdk_exn) : exn :=
  match e with
  | ValidationError msg =>
      APIError [Lit "Failed to submit trade intent via WS: "; Lit msg]
  | Exn e =>
      if is_Exception e
      then APIError (Lit "Failed to submit trade intent via WS: " :: exn_str lib e)
      else e
  end.

(** How the call goes on after [send_request] has returned or raised. *)
Definition intent_exit (lib : exn → list fpart) (t : task) : task :=
  match t with
  | Waiting k fut => Waiting k fut
  | Returned response =>
      match (resp ← py_get response "response" (JObj ∅);
             py_get resp "payload" (JObj ∅)) with
      | Ok payload => Returned payload
      | Raise e => Raised (intent_except lib (Exn e))
      end
  | Raised e => Raised (intent_except lib (Exn e))
  end.

(** [submit_trade_intent_ws(exchange, **kwargs)] up to the suspension
    inside [send_request], or to its exit if it comes first. *)
Definition submit_trade_intent_ws_start (lib : exn → list fpart) (s : world)
    (exchange : exchange_arg) (kwargs : obj) : option (world * task) :=
  match intent_payload exchange kwargs with
  | Invalid msg => Some (s, Raised (intent_except lib (ValidationError msg)))
  | Payload payload =>
      let s1 := with_dicts (λ ds, ds ++ [intent_request payload]) s in
      '(s2, t) ← send_request_start s1 (length (dicts s));
      Some (s2, intent_exit lib t)
  end.

(** From the resumption inside [send_request] to the exit. *)
Definition submit_trade_intent_ws_resume (lib : exn → list fpart) (s : world)
    (request_id : Z) (fut : nat) (w : wake) : option (world * task) :=
  '(s', t) ← send_request_resume s request_id fut w;
  Some (s', intent_exit lib t).

(** The message starts with the prefix of [submit_trade_intent_ws]. *)
Definition intent_failure (e : exn) : Prop :=
  ∃ msg, e = APIError (Lit "Failed to submit trade intent via WS: " :: msg).

(** * [HTTPClient]: the request URL *)

(** The character ['/'] (code 47). *)
Definition slash : Ascii.ascii :=
  Ascii.Ascii true true true true false true false false.

(** [s.lstrip(c)] and [s.rstrip(c)] for a single character [c]. *)
Fixpoint lstrip (c : Ascii.ascii) (s : string) : string :=
  match s with
  | EmptyString => EmptyString
  | String a s' => if Ascii.eqb a c then lstrip c s' else s
  end.

Fixpoint rstrip (c : Ascii.ascii) (s : string) : string :=
  match s with
  | EmptyString => EmptyString
  | String a s' =>
      match rstrip c s' with
      | EmptyString => if Ascii.eqb a c then EmptyString else String a EmptyString
      | r => String a r
      end
  end.

(** [self.base_url = base_url.rstrip('/')] *)
Definition HTTPClient_base_url (base_url : string) : string := rstrip slash base_url.

(** [url = f"{self.base_url}/{endpoint.lstrip('/')}"], with [self_base_url]
    the attribute. *)
Definition request_url (self_base_url endpoint : string) : string :=
  self_base_url +:+ "/" +:+ lstrip slash endpoint.

(** [AsterDexClient.request]:
    [full_endpoint = f"/{api_type}/{endpoint.lstrip('/')}"], which is what
    reaches the HTTP client when there are no query parameters. *)
Definition full_endpoint (api_type endpoint : string) : string :=
  "/" +:+ api_type +:+ "/" +:+ lstrip slash endpoint.

(** * Vocabulary of the properties *)

(** ** Frames *)

(** [f] is a reply frame: channel ["post"], with data object [d] (an
    absent ["data"] counts as the empty object, as in the code).  The id it
    refers to is [d.get("id")]. *)
Definition is_reply (f : frame) (d : obj) : Prop :=
  ∃ m, f = Parsed (JObj m) ∧ m !! "channel" = Some (JStr "post")
       ∧ default (JObj ∅) (m !! "data") = JObj d.

Definition reply_id (d : obj) : json := default JNull (d !! "id").

(** No key of the pending table is equal to the value [id]. *)
Definition unmatched (s : world) (id : json) : Prop :=
  ∀ k, py_int_key id = Ok (Some k) → pending_requests (ws s) !! k = None.

(** The plainest reply frame for request [id]. *)
Definition reply (id : Z) (body : obj) : frame :=
  Parsed (JObj {["channel" := JStr "post"; "data" := JObj (<["id" := JInt id]> body)]}).

(** An acknowledgment frame: channel ["subscriptionResponse"]. *)
Definition is_ack (f : frame) : Prop :=
  ∃ m, f = Parsed (JObj m) ∧ m !! "channel" = Some (JStr "subscriptionResponse").

(** What a frame can do to the world at all: nothing, or pop one entry
    and, if its future is still pending, resolve that future. *)
Inductive frame_effect (s : world) : world → outcome → Prop :=
| fe_none o : frame_effect s s o
| fe_done k fut :
    pending_requests (ws s) !! k = Some fut → future_done s fut = true →
    frame_effect s (pop k s) (AlreadyDone k)
| fe_resolved k fut v :
    pending_requests (ws s) !! k = Some fut → futures s !! fut = Some Pending →
    frame_effect s (with_futures <[fut := FResult v]> (pop k s)) (Resolved k).

(** ** Exceptions and exits *)

(** [Exception("Connection closed")], set by the receive loop on its way
    out. *)
Definition closed_error : exn := PyException [Lit "Connection closed"].

(** [APIError(f"Request {request_id} timed out")] *)
Definition timed_out (request_id : Z) : exn :=
  APIError [Lit "Request "; Val (JInt request_id); Lit " timed out"].

Definition is_waiting (t : task) : bool :=
  match t with
  | Waiting _ _ => true
  | _ => false
  end.

(** The state of a call that left [send_request] with [r]. *)
Definition task_of (r : result json) : task :=
  match r with
  | Ok v => Returned v
  | Raise e => Raised e
  end.


(** ** Invariants *)

(** The books of the client are in order. *)
Record consistent (s : world) : Prop := {
  counter_nonneg : 0 ≤ request_counter (ws s);
  (** table entries carry issued ids and refer to existing futures *)
  pending_issued : ∀ k fut, pending_requests (ws s) !! k = Some fut →
    1 ≤ k ≤ request_counter (ws s) ∧ (fut < length (futures s))%nat;
  waiting_issued : ∀ t k fut, tasks s !! t = Some (Waiting k fut) →
    1 ≤ k ≤ request_counter (ws s) ∧ (fut < length (futures s))%nat;
  (** no two calls in flight share an id *)
  waiting_distinct : ∀ t1 t2 k f1 f2,
    tasks s !! t1 = Some (Waiting k f1) → tasks s !! t2 = Some (Waiting k f2) → t1 = t2;
  (** a call in flight whose future is unresolved is in the table *)
  waiting_registered : ∀ t k fut, tasks s !! t = Some (Waiting k fut) →
    futures s !! fut = Some Pending → pending_requests (ws s) !! k = Some fut;
}.

(** Every future has one owner. *)
Record exclusive (s : world) : Prop := {
  (** no two calls in flight share a future *)
  waiting_futures_distinct : ∀ t1 t2 k1 k2 fut,
    tasks s !! t1 = Some (Waiting k1 fut) → tasks s !! t2 = Some (Waiting k2 fut) →
    t1 = t2;
  (** no two table entries share a future *)
  pending_injective : ∀ k1 k2 fut,
    pending_requests (ws s) !! k1 = Some fut → pending_requests (ws s) !! k2 = Some fut →
    k1 = k2;
  (** the entry under the id of a call in flight holds that call's future,
      and the future is unresolved *)
  entry_owner : ∀ t k fut fut',
    tasks s !! t = Some (Waiting k fut) → pending_requests (ws s) !! k = Some fut' →
    fut' = fut ∧ futures s !! fut = Some Pending;
}.

(** ** Sample worlds and interleavings *)

(** A connected client with its receive loop running, and one request
    dict [d] in the hands of a caller. *)
Definition connected_with (d : obj) : world :=
  mkWorld (mkClient (Some Open) true 0 ∅) [] [d] [] true [].

(** Connect, build an info request, call [send_request] with it. *)
Definition one_call : list event :=
  [EConnect None; ENewDict (info_request JNull); ECall 0%nat].

Definition three_calls : list event :=
  [EConnect None; ENewDict (info_request JNull);
   ECall 0%nat; ECall 0%nat; ECall 0%nat].

Definition two_dicts : list event :=
  [EConnect None; ENewDict (info_request (JStr "a")); ENewDict (info_request (JStr "b"))].


(** [{id: 3, response: {type: "error", payload: "insufficient margin"}}] *)
Definition margin_error : obj :=
  {["id" := JInt 3;
    "response" := JObj {["type" := JStr "error";
                         "payload" := JStr "insufficient margin"]}]}.

Definition answer (v : string) : obj :=
  {["response" := JObj {["type" := JStr "info"; "payload" := JStr v]}]}.

(** [params={"coin": "SOL"}] *)
Definition sol_trades : option obj := Some {["coin" := JStr "SOL"]}.

(** * Properties *)

Lemma append_empty_r (s : string) : s +:+ "" = s.
Proof.
  induction s as [|a s IH]; [done|].
  change (String a (s +:+ "") = String a s). by rewrite IH.
Qed.

(** ** Frames *)

Lemma reply_is_reply id body : is_reply (reply id body) (<["id" := JInt id]> body).
Proof.
  exists {["channel" := JStr "post"; "data" := JObj (<["id" := JInt id]> body)]}.
  split; [done|]. split; [by vm_compute|].
  rewrite lookup_insert_ne by done. by rewrite lookup_singleton_eq.
Qed.

Lemma reply_id_insert id body : reply_id (<["id" := JInt id]> body) = JInt id.
Proof. unfold reply_id. by rewrite lookup_insert_eq. Qed.

(** ** What one frame does *)

Lemma process_body_reply s m d :
  m !! "channel" = Some (JStr "post") →
  default (JObj ∅) (m !! "data") = JObj d →
  process_body s (JObj m) = process_post s (JObj m).
Proof. intros Hc _. unfold process_body. simpl. by rewrite Hc. Qed.

Lemma process_post_reply s m d :
  default (JObj ∅) (m !! "data") = JObj d →
  process_post s (JObj m) =
    (key ← py_int_key (reply_id d);
     match key ≫= λ k, (k,.) <$> pending_requests (ws s) !! k with
     | Some (k, fut) =>
         if future_done (pop k s) fut then Ok (pop k s, AlreadyDone k)
         else Ok (with_futures <[fut := FResult (JObj d)]> (pop k s), Resolved k)
     | None => Ok (s, UnknownRequest)
     end).
Proof. intros Hd. unfold process_post. simpl. by rewrite Hd. Qed.

(** A reply whose id is in the table, its future still pending: the entry
    is popped and the future gets the data object. *)
Lemma process_reply_resolves s f d k fut :
  is_reply f d → py_int_key (reply_id d) = Ok (Some k) →
  pending_requests (ws s) !! k = Some fut →
  futures s !! fut = Some Pending →
  _process_message s f
  = Ok (with_futures <[fut := FResult (JObj d)]> (pop k s), Resolved k).
Proof.
  intros (m & -> & Hc & Hd) Hk Hp Hf. simpl.
  rewrite (process_body_reply _ _ _ Hc Hd), (process_post_reply _ _ _ Hd), Hk.
  simpl. rewrite Hp. simpl. unfold future_done. simpl. by rewrite Hf.
Qed.

(** A reply whose id is in the table, its future already done (cancelled
    by its caller): the entry is popped and nothing else happens. *)
Lemma process_reply_done s f d k fut :
  is_reply f d → py_int_key (reply_id d) = Ok (Some k) →
  pending_requests (ws s) !! k = Some fut →
  future_done s fut = true →
  _process_message s f = Ok (pop k s, AlreadyDone k).
Proof.
  intros (m & -> & Hc & Hd) Hk Hp Hf. simpl.
  rewrite (process_body_reply _ _ _ Hc Hd), (process_post_reply _ _ _ Hd), Hk.
  simpl. rewrite Hp. simpl. unfold future_done in *. simpl. by rewrite Hf.
Qed.

(** A reply whose id is not in the table changes nothing. *)
Lemma process_reply_unmatched s f d :
  is_reply f d → unmatched s (reply_id d) →
  ∃ o, _process_message s f = Ok (s, o).
Proof.
  intros (m & -> & Hc & Hd) Hu. simpl.
  rewrite (process_body_reply _ _ _ Hc Hd), (process_post_reply _ _ _ Hd).
  destruct (py_int_key (reply_id d)) as [[k|]|e] eqn:Hk; simpl.
  - rewrite (Hu k Hk). simpl. eauto.
  - eauto.
  - destruct (reply_id d); simplify_eq/=; eauto.
Qed.

Lemma for_each_raise l e :
  for_each order_update_step l = Raise e → is_Exception e = true.
Proof.
  induction l as [|x l IH]; simpl; [done|].
  unfold order_update_step, py_get. intros H.
  repeat (case_match; simplify_eq/=); auto.
Qed.

Lemma process_post_effect s data :
  match process_post s data with
  | Ok (s', o) => frame_effect s s' o
  | Raise e => is_Exception e = true
  end.
Proof.
  unfold process_post, py_get.
  destruct data; simpl; try done.
  destruct (default (JObj ∅) (m !! "data")); simpl; try done.
  destruct (py_int_key _) as [[k|]|e] eqn:Hk; simpl.
  - destruct (pending_requests (ws s) !! k) as [fut|] eqn:Hp; simpl.
    + destruct (future_done (with_ws _ s) fut) eqn:Hd.
      * by eapply fe_done.
      * eapply fe_resolved; [done|]. unfold future_done in Hd. simpl in Hd.
        destruct (futures s !! fut) as [[]|]; simplify_eq/=; done.
    + constructor.
  - constructor.
  - unfold py_int_key in Hk. repeat (case_match; simplify_eq/=); done.
Qed.

Lemma process_order_updates_raise data e :
  process_order_updates data = Raise e → is_Exception e = true.
Proof.
  unfold process_order_updates. intros H.
  destruct (py_get data "data" (JArr [])) as [od|] eqn:H1; simpl in H;
    [|unfold py_get in H1; repeat (case_match; simplify_eq/=); done].
  destruct (py_iter od) as [items|] eqn:H2; simpl in H;
    [|unfold py_iter in H2; repeat (case_match; simplify_eq/=); done].
  destruct (for_each order_update_step items) eqn:H3; simpl in H; [done|].
  simplify_eq. by eapply for_each_raise.
Qed.

Lemma process_subscription_response_raise data e :
  process_subscription_response data = Raise e → is_Exception e = true.
Proof.
  unfold process_subscription_response, py_get. intros H.
  repeat (case_match; simplify_eq/=); done.
Qed.

Lemma process_channel_update_raise data e :
  process_channel_update data = Raise e → is_Exception e = true.
Proof.
  unfold process_channel_update, py_contains, py_getitem, py_get. intros H.
  repeat (case_match; simplify_eq/=); done.
Qed.

Lemma logging_branch_effect s (r : result outcome) :
  (∀ e, r = Raise e → is_Exception e = true) →
  match (s,.) <$> r with
  | Ok (s', o) => frame_effect s s' o
  | Raise e => is_Exception e = true
  end.
Proof. destruct r; simpl; [constructor|auto]. Qed.

Lemma process_body_effect s data :
  match process_body s data with
  | Ok (s', o) => frame_effect s s' o
  | Raise e => is_Exception e = true
  end.
Proof.
  unfold process_body.
  destruct (py_get data "channel" JNull) as [channel|e] eqn:Hch; simpl;
    [|unfold py_get in Hch; repeat (case_match; simplify_eq/=); done].
  destruct (py_eq_str channel "post"); [apply process_post_effect|].
  destruct (py_eq_str channel "orderUpdates");
    [apply logging_branch_effect, process_order_updates_raise|].
  destruct (py_eq_str channel "subscriptionResponse");
    [apply logging_branch_effect, process_subscription_response_raise|].
  destruct (py_contains data "channel") as [[]|e] eqn:Hc; simpl.
  - apply logging_branch_effect, process_channel_update_raise.
  - constructor.
  - unfold py_contains in Hc. repeat (case_match; simplify_eq/=); done.
Qed.

Lemma process_message_effect s f :
  ∃ s' o, _process_message s f = Ok (s', o) ∧ frame_effect s s' o.
Proof.
  destruct f as [|data]; simpl; [eexists _, _; split; [done|constructor]|].
  pose proof (process_body_effect s data) as H.
  destruct (process_body s data) as [[s' o]|e].
  - eauto.
  - rewrite H. eexists _, _; split; [done|constructor].
Qed.

(** A decoded frame that is not a dict with channel ["post"] changes
    nothing, also when its handling fails inside. *)
Lemma non_post_unchanged s data :
  (∀ m, data = JObj m → m !! "channel" ≠ Some (JStr "post")) →
  ∃ o, _process_message s (Parsed data) = Ok (s, o).
Proof.
  intros Hnp. simpl. unfold process_body.
  destruct data as [| | | | | |m]; simpl; eauto.
  assert (py_eq_str (default JNull (m !! "channel")) "post" = false) as ->.
  { destruct (m !! "channel") as [v|] eqn:Hc; simpl; [|done].
    destruct v; simpl; try done. apply bool_decide_eq_false. intros ->.
    by eapply Hnp. }
  assert (∀ r : result outcome, (∀ e, r = Raise e → is_Exception e = true) →
            ∃ o, match (s,.) <$> r with
                 | Ok r' => Ok r'
                 | Raise e => if is_Exception e then Ok (s, ProcessingError e) else Raise e
                 end = Ok (s, o)) as Hbranch.
  { intros [o|e] He; simpl; [eauto|]. rewrite (He e eq_refl). eauto. }
  destruct (py_eq_str _ "orderUpdates");
    [apply Hbranch, process_order_updates_raise|].
  destruct (py_eq_str _ "subscriptionResponse");
    [apply Hbranch, process_subscription_response_raise|].
  destruct (bool_decide (is_Some (m !! "channel"))); simpl;
    [apply Hbranch, process_channel_update_raise|eauto].
Qed.

(** A frame is a reply, or it changes nothing. *)
Lemma frame_reply_or_unchanged s f :
  (∃ d, is_reply f d) ∨ (∃ o, _process_message s f = Ok (s, o)).
Proof.
  destruct f as [|data]; [right; by eexists|].
  destruct data as [| | | | | |m]; try (right; apply non_post_unchanged; by intros).
  assert (m !! "channel" = Some (JStr "post")
          ∨ m !! "channel" ≠ Some (JStr "post")) as [Hc|Hc].
  { destruct (m !! "channel") as [[| | | |c| |]|]; try (by right).
    destruct (decide (c = "post"%string)) as [->|Hne]; [by left|].
    right. by intros [= ->]. }
  2: { right. apply non_post_unchanged. by intros ? [= <-]. }
  destruct (default (JObj ∅) (m !! "data")) as [| | | | | |d] eqn:Hd;
    [..|left; exists d; by exists m].
  all: right; eexists; simpl; unfold process_body; simpl; rewrite Hc; simpl;
    unfold process_post; simpl; rewrite Hd; simpl; done.
Qed.

(** ** The [finally] block of the receive loop *)

Lemma fail_pending_length fut fs : length (fail_pending fut fs) = length fs.
Proof.
  unfold fail_pending. repeat case_match; auto using length_insert.
Qed.

Lemma fail_pending_lookup fut fs i :
  fail_pending fut fs !! i =
    match fs !! i with
    | Some Pending => Some (if bool_decide (i = fut) then FException closed_error else Pending)
    | o => o
    end.
Proof.
  unfold fail_pending. case_bool_decide as Hi.
  - subst i. destruct (fs !! fut) as [[]|] eqn:Hf; try done.
    rewrite list_lookup_insert_eq; [done|]. by eapply lookup_lt_Some.
  - destruct (fs !! fut) as [[]|] eqn:Hf; try (by repeat case_match).
    rewrite list_lookup_insert_ne by done. by repeat case_match.
Qed.

Lemma fail_all_length futs fs : length (foldr fail_pending fs futs) = length fs.
Proof.
  induction futs as [|fut futs IH]; simpl; [done|].
  by rewrite fail_pending_length.
Qed.

Lemma fail_all_lookup futs fs i :
  foldr fail_pending fs futs !! i =
    match fs !! i with
    | Some Pending => Some (if bool_decide (i ∈ futs) then FException closed_error else Pending)
    | o => o
    end.
Proof.
  induction futs as [|fut futs IH]; simpl.
  - by repeat case_match.
  - rewrite fail_pending_lookup, IH.
    destruct (fs !! i) as [[]|]; try done.
    destruct (decide (i ∈ futs)) as [Hin|Hin], (decide (i = fut)) as [Heq|Heq].
    + rewrite (bool_decide_eq_true_2 (i ∈ futs)), (bool_decide_eq_true_2 (i ∈ fut :: futs));
        [done|by right|done].
    + rewrite (bool_decide_eq_true_2 (i ∈ futs)), (bool_decide_eq_true_2 (i ∈ fut :: futs));
        [done|by right|done].
    + rewrite (bool_decide_eq_false_2 (i ∈ futs)), (bool_decide_eq_true_2 (i = fut)),
        (bool_decide_eq_true_2 (i ∈ fut :: futs)); [done|subst; by left|done|done].
    + rewrite (bool_decide_eq_false_2 (i ∈ futs)), (bool_decide_eq_false_2 (i = fut)),
        (bool_decide_eq_false_2 (i ∈ fut :: futs)); [done| |done|done].
      by intros [?|?]%elem_of_cons.
Qed.

Lemma pending_futures_elem (m : gmap Z nat) k fut :
  m !! k = Some fut → fut ∈ (map_to_list m).*2.
Proof.
  intros H. apply list_elem_of_fmap. exists (k, fut). split; [done|].
  by apply elem_of_map_to_list.
Qed.

Lemma handler_finally_pending s : pending_requests (ws (handler_finally s)) = ∅.
Proof. done. Qed.

(** Every future in the table that was pending now holds the exception
    [Exception("Connection closed")]. *)
Lemma handler_finally_fails s k fut :
  pending_requests (ws s) !! k = Some fut → futures s !! fut = Some Pending →
  futures (handler_finally s) !! fut = Some (FException closed_error).
Proof.
  intros Hp Hf. simpl. rewrite fail_all_lookup, Hf.
  rewrite bool_decide_eq_true_2; [done|]. by eapply pending_futures_elem.
Qed.

Lemma handler_finally_keeps s fut f :
  futures s !! fut = Some f → f ≠ Pending →
  futures (handler_finally s) !! fut = Some f.
Proof. intros Hf Hn. simpl. rewrite fail_all_lookup, Hf. by destruct f. Qed.

Lemma while_test_cases s : while_test s = s ∨ while_test s = handler_finally s.
Proof. unfold while_test. destruct (running (ws s) && _); auto. Qed.

Lemma while_test_connected s : connected (ws s) = true → while_test s = s.
Proof.
  unfold connected, while_test. intros Hc. by rewrite andb_comm, Hc.
Qed.

Lemma while_test_stopped s : running (ws s) = false → while_test s = handler_finally s.
Proof. unfold while_test. by intros ->. Qed.

(** With [running] cleared, a turn of the loop is its last: what was
    delivered is processed, then the [finally] block runs. *)
Lemma last_turn s recv :
  running (ws s) = false →
  ∃ s',
    _message_handler s recv = handler_finally s'
    ∧ match recv with
      | Ok f => ∃ o, _process_message s f = Ok (s', o)
      | Raise _ => s' = s
      end.
Proof.
  intros Hr. destruct recv as [f|e]; simpl.
  - destruct (process_message_effect s f) as (s' & o & Hp & He).
    exists s'. rewrite Hp. split; [|by exists o].
    apply while_test_stopped. by destruct He.
  - exists s. split; [|done]. unfold handler_except.
    destruct e; simpl; rewrite ?while_test_stopped; done.
Qed.

(** ** Bookkeeping invariant *)

Lemma consistent_initial : consistent initial.
Proof. split; simpl; intros; try done; try lia; by simplify_map_eq. Qed.

Lemma frame_effect_consistent s s' o :
  frame_effect s s' o → consistent s → consistent s'.
Proof.
  intros [o'|k fut Hp Hd|k fut v Hp Hf] [H0 H1 H2 H3 H4]; [done|..].
  - split; simpl; auto.
    + intros k' fut' [? ?]%lookup_delete_Some. eauto.
    + intros t k' fut' Ht Hf'. pose proof (H4 _ _ _ Ht Hf') as Hk.
      rewrite lookup_delete_ne; [done|]. intros ->. simplify_eq.
      unfold future_done in Hd. by rewrite Hf' in Hd.
  - split; simpl; auto.
    + intros k' fut' [? ?]%lookup_delete_Some. rewrite length_insert. eauto.
    + intros. rewrite length_insert. eauto.
    + intros t k' fut' Ht Hf'.
      destruct (decide (fut' = fut)) as [->|Hne].
      { rewrite list_lookup_insert_eq in Hf' by (by eapply lookup_lt_Some). done. }
      rewrite list_lookup_insert_ne in Hf' by done.
      pose proof (H4 _ _ _ Ht Hf') as Hk.
      rewrite lookup_delete_ne; [done|]. intros ->. by simplify_eq.
Qed.

Lemma handler_finally_consistent s : consistent s → consistent (handler_finally s).
Proof.
  intros [H0 H1 H2 H3 H4]. split; simpl; auto.
  - intros k fut. by rewrite lookup_empty.
  - intros. rewrite fail_all_length. eauto.
  - intros t k fut Ht Hf. exfalso.
    rewrite fail_all_lookup in Hf.
    destruct (futures s !! fut) as [[]|] eqn:Hf0; try done.
    rewrite bool_decide_eq_true_2 in Hf; [done|].
    eapply pending_futures_elem, H4; eauto.
Qed.

(** ** [send_request], start *)

Lemma start_not_connected s request d :
  dicts s !! request = Some d → connected (ws s) = false →
  send_request_start s request
  = Some (s, Raised (APIError [Lit "WebSocket not connected"])).
Proof. intros Hd Hc. unfold send_request_start. rewrite Hd. simpl. by rewrite Hc. Qed.

(** On an open connection: the counter is incremented, the id is added to
    the caller's dict if it has none, a fresh future is registered under
    the counter value, the dict is written to the socket, and the call
    waits. *)
Lemma start_open s request d :
  dicts s !! request = Some d →
  websocket (ws s) = Some Open → running (ws s) = true →
  let request_id := request_counter (ws s) + 1 in
  send_request_start s request
  = Some (mkWorld
            (mkClient (Some Open) true request_id
               (<[request_id := length (futures s)]> (pending_requests (ws s))))
            (futures s ++ [Pending])
            (<[request := add_id request_id d]> (dicts s))
            (wire s ++ [JObj (add_id request_id d)])
            (handler s) (tasks s),
          Waiting request_id (length (futures s))).
Proof.
  intros Hd Hw Hr. unfold send_request_start, connected, websocket_send.
  rewrite Hd. destruct s as [[w r c p] fs ds wi h ts]. simpl in *. by subst w r.
Qed.

(** On a connection that has been closed: the id is consumed, the entry is
    registered and popped again, and the call raises [ConnectionClosed]. *)
Lemma start_closed s request d :
  dicts s !! request = Some d →
  websocket (ws s) = Some Closed → running (ws s) = true →
  let request_id := request_counter (ws s) + 1 in
  send_request_start s request
  = Some (mkWorld
            (mkClient (Some Closed) true request_id
               (delete request_id (<[request_id := length (futures s)]> (pending_requests (ws s)))))
            (futures s ++ [Pending])
            (<[request := add_id request_id d]> (dicts s))
            (wire s) (handler s) (tasks s),
          Raised ConnectionClosed).
Proof.
  intros Hd Hw Hr. unfold send_request_start, connected, websocket_send.
  rewrite Hd. destruct s as [[w r c p] fs ds wi h ts]. simpl in *. by subst w r.
Qed.

Lemma start_cases s request s' t :
  send_request_start s request = Some (s', t) →
  ∃ d, dicts s !! request = Some d ∧
    ((connected (ws s) = false ∧ s' = s
        ∧ t = Raised (APIError [Lit "WebSocket not connected"])) ∨
     (websocket (ws s) = Some Open ∧ running (ws s) = true
        ∧ send_request_start s request = Some (s', t)) ∨
     (websocket (ws s) = Some Closed ∧ running (ws s) = true
        ∧ send_request_start s request = Some (s', t))).
Proof.
  intros H. destruct (dicts s !! request) as [d|] eqn:Hd;
    [|by unfold send_request_start in H; rewrite Hd in H].
  exists d. split; [done|].
  destruct (connected (ws s)) eqn:Hc.
  - unfold connected in Hc. apply andb_prop in Hc as [Hw Hr].
    apply bool_decide_eq_true in Hw as [[] Hw]; eauto 10.
  - left. rewrite (start_not_connected _ _ _ Hd Hc) in H. by simplify_eq.
Qed.

Lemma call_consistent s request s' t :
  send_request_start s request = Some (s', t) →
  consistent s → consistent (with_tasks (λ ts, ts ++ [t]) s').
Proof.
  intros H [H0 H1 H2 H3 H4].
  assert (∀ t' k fut, (tasks s ++ [Raised t']) !! k = Some fut → tasks s !! k = Some fut ∨ fut = Raised t') as Hsnoc.
  { intros t' k fut [?| [_ Hl]]%lookup_app_Some; [by left|right].
    destruct (k - length (tasks s))%nat; by simplify_eq/=. }
  destruct (start_cases _ _ _ _ H) as (d & Hd & [(Hc & -> & ->)|[(Hw & Hr & E)|(Hw & Hr & E)]]).
  - split; simpl; auto.
    + intros t k fut [?|?]%Hsnoc; [eauto|done].
    + intros t1 t2 k f1 f2 [?|?]%Hsnoc [?|?]%Hsnoc; try done; eauto.
    + intros t k fut [?|?]%Hsnoc; [eauto|done].
  - rewrite (start_open _ _ _ Hd Hw Hr) in E. simplify_eq. clear H.
    set (c := request_counter (ws s)) in *.
    assert (∀ t k fut, (tasks s ++ [Waiting (c + 1) (length (futures s))]) !! t = Some (Waiting k fut) →
              tasks s !! t = Some (Waiting k fut) ∨
              (t = length (tasks s) ∧ k = c + 1 ∧ fut = length (futures s))) as Hnew.
    { intros t k fut [?| [Hge Hl]]%lookup_app_Some; [by left|right].
      destruct (t - length (tasks s))%nat eqn:E; simplify_eq/=. split; [lia|done]. }
    split; simpl; rewrite ?length_app; simpl.
    + lia.
    + intros k fut [[<- <-]|[? Hk]]%lookup_insert_Some; [lia|].
      apply H1 in Hk. lia.
    + intros t k fut [Ht|(-> & -> & ->)]%Hnew; [apply H2 in Ht|]; lia.
    + intros t1 t2 k f1 f2 [Ht1|(-> & -> & ->)]%Hnew [Ht2|(-> & ? & ->)]%Hnew; eauto.
      * apply H2 in Ht1. lia.
      * apply H2 in Ht2. lia.
    + intros t k fut [Ht|(-> & -> & ->)]%Hnew Hf.
      * pose proof (H2 _ _ _ Ht) as [? ?].
        rewrite lookup_app_l in Hf by lia.
        rewrite lookup_insert_ne by lia. eauto.
      * by rewrite lookup_insert_eq.
  - rewrite (start_closed _ _ _ Hd Hw Hr) in E. simplify_eq. clear H.
    set (c := request_counter (ws s)) in *.
    split; simpl; rewrite ?length_app; simpl.
    + lia.
    + intros k fut [? [[? ?]|[? Hk]]%lookup_insert_Some]%lookup_delete_Some; [done|].
      apply H1 in Hk. lia.
    + intros t k fut [Ht|?]%Hsnoc; [apply H2 in Ht; lia|done].
    + intros t1 t2 k f1 f2 [?|?]%Hsnoc [?|?]%Hsnoc; try done; eauto.
    + intros t k fut [Ht|?]%Hsnoc Hf; [|done].
      pose proof (H2 _ _ _ Ht) as [? ?].
      rewrite lookup_app_l in Hf by lia.
      rewrite lookup_delete_ne, lookup_insert_ne by lia. eauto.
Qed.

(** ** [send_request], exit *)

Lemma check_response_raise response e :
  check_response response = Raise e → is_Exception e = true.
Proof.
  unfold check_response, py_get. intros H.
  repeat (case_match; simplify_eq/=); done.
Qed.

Lemma finish_shape s k r :
  ∃ (popped : bool) t, finish s k r = (if popped then pop k s else s, t)
                       ∧ is_waiting t = false.
Proof.
  destruct r as [v|e]; simpl; [by exists false, (Returned v)|].
  destruct e; simpl; first [by eexists true, _ | by eexists false, _].
Qed.

(** A call leaves [send_request] having at most cancelled its own future
    and popped its own id. *)
Lemma resume_shape s k fut w s' t' :
  send_request_resume s k fut w = Some (s', t') →
  ∃ popped cancelled : bool,
    s' = (if popped then pop k else id)
           ((if cancelled then with_futures <[fut := FCancelled]> else id) s)
    ∧ (cancelled = true → futures s !! fut = Some Pending)
    ∧ is_waiting t' = false.
Proof.
  unfold send_request_resume, wait_for. intros H.
  destruct (futures s !! fut) as [f|] eqn:Hf; simpl in H; [|done].
  destruct w, f; simpl in H; try done.
  - destruct (finish_shape s k (check_response v)) as (p & t & E & Ht).
    rewrite E in H. simplify_eq. exists p, false. by destruct p.
  - destruct (finish_shape s k (Raise e)) as (p & t & E & Ht).
    simpl in E. rewrite E in H. simplify_eq. exists p, false. by destruct p.
  - simplify_eq. by exists false, false.
  - simplify_eq. by exists true, true.
  - simplify_eq. by exists false, true.
Qed.

Lemma resume_consistent s t k fut w s' t' :
  tasks s !! t = Some (Waiting k fut) →
  send_request_resume s k fut w = Some (s', t') →
  consistent s → consistent (with_tasks <[t := t']> s').
Proof.
  intros Ht (popped & cancelled & -> & Hc & Hw)%resume_shape [H0 H1 H2 H3 H4].
  set (s1 := (if popped then pop k else id)
               ((if cancelled then with_futures <[fut := FCancelled]> else id) s)).
  assert (tasks s1 = tasks s) as Htasks by (by destruct popped, cancelled).
  assert (request_counter (ws s1) = request_counter (ws s)) as Hctr
    by (by destruct popped, cancelled).
  assert (length (futures s1) = length (futures s)) as Hlen.
  { destruct popped, cancelled; simpl; rewrite ?length_insert; done. }
  assert (∀ f2, futures s1 !! f2 = Some Pending → futures s !! f2 = Some Pending) as Hfut.
  { intros f2. assert (futures s1 = if cancelled then <[fut := FCancelled]> (futures s)
                                    else futures s) as -> by (by destruct popped, cancelled).
    destruct cancelled; [|done].
    destruct (decide (f2 = fut)) as [->|Hne].
    - rewrite list_lookup_insert_eq; [done|]. eapply lookup_lt_Some, Hc; done.
    - by rewrite list_lookup_insert_ne. }
  assert (∀ k2 f2, pending_requests (ws s1) !! k2 = Some f2 →
            pending_requests (ws s) !! k2 = Some f2) as Hsub.
  { intros k2 f2. destruct popped, cancelled; simpl; try done;
      by intros [? ?]%lookup_delete_Some. }
  assert (∀ k2 f2, k2 ≠ k → pending_requests (ws s) !! k2 = Some f2 →
            pending_requests (ws s1) !! k2 = Some f2) as Hkeep.
  { intros k2 f2 Hne. destruct popped, cancelled; simpl; rewrite ?lookup_delete_ne; done. }
  assert (∀ t2 k2 f2, <[t := t']> (tasks s) !! t2 = Some (Waiting k2 f2) →
            t2 ≠ t ∧ tasks s !! t2 = Some (Waiting k2 f2)) as Hold.
  { intros t2 k2 f2 Hl. destruct (decide (t2 = t)) as [->|Hne].
    - rewrite list_lookup_insert_eq in Hl by (by eapply lookup_lt_Some).
      by simplify_eq.
    - by rewrite list_lookup_insert_ne in Hl. }
  clearbody s1. split; simpl; rewrite ?Htasks, ?Hctr, ?Hlen.
  - done.
  - intros k2 f2 Hp%Hsub. eauto.
  - intros t2 k2 f2 [_ Hl]%Hold. eauto.
  - intros t1 t2 k2 f1 f2 [_ Hl1]%Hold [_ Hl2]%Hold. eauto.
  - intros t2 k2 f2 [Hne Hl]%Hold Hf%Hfut.
    apply Hkeep; [|by eauto]. intros ->. eauto.
Qed.

Lemma disconnect_shape s :
  disconnect s = with_ws (set_running false) s
  ∨ disconnect s = with_ws (set_websocket (Some Closed)) (with_ws (set_running false) s).
Proof. unfold disconnect. simpl. destruct (websocket (ws s)); auto. Qed.

Lemma send_control_shape s method channel params :
  (send_control s method channel params).1 = s
  ∨ (send_control s method channel params).1
    = with_wire (λ w, w ++ [control_frame method channel params]) s.
Proof.
  unfold send_control, websocket_send.
  destruct (websocket (ws s)) as [[]|]; simpl; auto.
Qed.

(** ** Every step keeps the books *)

Lemma step_consistent s ev s' : step s ev = Some s' → consistent s → consistent s'.
Proof.
  destruct ev as [failure| | |d|request|t w|recv|channel params|channel params];
    simpl; intros H Hs.
  - destruct (handler s); [done|]. simplify_eq.
    destruct failure; simpl; [done|]. by destruct Hs.
  - simplify_eq. destruct (disconnect_shape s) as [-> | ->]; by destruct Hs.
  - destruct (websocket (ws s)) as [[]|]; simplify_eq. by destruct Hs.
  - simplify_eq. by destruct Hs.
  - destruct (send_request_start s request) as [[s1 t]|] eqn:E; simplify_eq/=.
    by eapply call_consistent.
  - destruct (tasks s !! t) as [[k fut| |]|] eqn:Ht; simplify_eq/=.
    destruct (send_request_resume s k fut w) as [[s1 t']|] eqn:E; simplify_eq/=.
    by eapply resume_consistent.
  - destruct (handler s); simplify_eq. unfold _message_handler.
    assert (∀ s0, consistent s0 → consistent (while_test s0)) as Hw.
    { intros s0 H0.
      destruct (while_test_cases s0) as [-> | ->]; auto using handler_finally_consistent. }
    assert (∀ e, consistent (handler_except s e)) as He.
    { intros e. unfold handler_except.
      destruct e; simpl; auto using handler_finally_consistent. }
    destruct recv as [message|e]; [|done].
    destruct (process_message_effect s message) as (s1 & o & -> & Hfe).
    apply Hw. by eapply frame_effect_consistent.
  - simplify_eq. unfold subscribe_to_channel.
    destruct (send_control_shape s "subscribe" channel params) as [-> | ->];
      [done|by destruct Hs].
  - simplify_eq. unfold unsubscribe_from_channel.
    destruct (send_control_shape s "unsubscribe" channel params) as [-> | ->];
      [done|by destruct Hs].
Qed.

Lemma run_consistent evs s s' : run s evs = Some s' → consistent s → consistent s'.
Proof.
  revert s. induction evs as [|ev evs IH]; simpl; intros s H Hs; [by simplify_eq|].
  destruct (step s ev) as [s1|] eqn:E; simplify_eq/=.
  eauto using step_consistent.
Qed.

Lemma reachable_consistent s : reachable s → consistent s.
Proof. intros [evs H]. eauto using run_consistent, consistent_initial. Qed.

(** ** Request ids *)





(** The id of a call that waits is the id it was assigned, and its future
    is registered under that id. *)
Lemma call_registered s request s' k fut :
  send_request_start s request = Some (s', Waiting k fut) →
  assigned_id s (ECall request) = Some k
  ∧ k = request_counter (ws s) + 1
  ∧ pending_requests (ws s') !! k = Some fut
  ∧ futures s' !! fut = Some Pending.
Proof.
  intros E. simpl. rewrite E. simpl.
  destruct (start_cases _ _ _ _ E) as (d & Hd & [(Hc & _ & ?)|[(Hw & Hr & _)|(Hw & Hr & _)]]);
    [done| |by rewrite (start_closed _ _ _ Hd Hw Hr) in E].
  rewrite (start_open _ _ _ Hd Hw Hr) in E. simplify_eq/=.
  unfold connected. rewrite Hw, Hr. simpl.
  rewrite lookup_insert_eq, lookup_app_r, Nat.sub_diag by done. done.
Qed.



(** ** The caller's dictionary *)

Lemma resume_dicts s k fut w s' t' :
  send_request_resume s k fut w = Some (s', t') → dicts s' = dicts s.
Proof.
  intros (popped & cancelled & -> & _)%resume_shape. by destruct popped, cancelled.
Qed.

(** C10.  A call that gets past the connection check with a dict that has
    no ["id"] key writes the generated id into that very dict: after the
    call has started the caller's reference leads to the dict with ["id"]
    set to the counter value, every other key and every other dict is as
    before, the frame written to an open socket is the dict with the id in
    it, and the exit of the call does not touch the dict again. *)
Theorem send_request_mutates_request s request d :
  dicts s !! request = Some d → d !! "id" = None → connected (ws s) = true →
  let request_id := request_counter (ws s) + 1 in
  ∃ s' t,
    send_request_start s request = Some (s', t)
    ∧ dicts s' !! request = Some (<["id" := JInt request_id]> d)
    ∧ (∀ k, k ≠ "id" → dicts s' !! request ≫= (.!! k) = d !! k)
    ∧ (∀ r, r ≠ request → dicts s' !! r = dicts s !! r)
    ∧ (websocket (ws s) = Some Open →
       wire s' = wire s ++ [JObj (<["id" := JInt request_id]> d)])
    ∧ (∀ k fut w s'' t', t = Waiting k fut →
       send_request_resume s' k fut w = Some (s'', t') → dicts s'' = dicts s').
Proof.
  intros Hd Hid Hc request_id.
  assert (add_id request_id d = <["id" := JInt request_id]> d) as Hadd.
  { unfold add_id. rewrite Hid. rewrite bool_decide_eq_false_2; [done|].
    by intros [? ?]. }
  assert (request < length (dicts s))%nat as Hlt by (by eapply lookup_lt_Some).
  unfold connected in Hc. apply andb_prop in Hc as [Hw Hr].
  apply bool_decide_eq_true in Hw as [[] Hw].
  - eexists _, _. split; [by apply start_open|]. fold request_id. simpl.
    rewrite Hadd, list_lookup_insert_eq by done. simpl.
    split; [done|]. split; [by intros k ?; rewrite lookup_insert_ne|].
    split; [by intros r ?; rewrite list_lookup_insert_ne|].
    split; [done|]. intros k fut w s'' t' _. apply resume_dicts.
  - eexists _, _. split; [by apply start_closed|]. fold request_id. simpl.
    rewrite Hadd, list_lookup_insert_eq by done. simpl.
    split; [done|]. split; [by intros k ?; rewrite lookup_insert_ne|].
    split; [by intros r ?; rewrite list_lookup_insert_ne|].
    split; [by rewrite Hw|]. intros k fut w s'' t' ?. done.
Qed.

Lemma send_request_mutates_request_witness :
  ∃ s' t,
    send_request_start (connected_with (info_request JNull)) 0 = Some (s', t)
    ∧ dicts s' !! 0%nat = Some (<["id" := JInt 1]> (info_request JNull)).
Proof.
  destruct (send_request_mutates_request
              (connected_with (info_request JNull)) 0 (info_request JNull))
    as (s' & t & H1 & H2 & _); [done|by vm_compute|done|].
  by exists s', t.
Defined.

(** ** Replies *)

(** Everything a reply frame can do. *)
Lemma process_reply_cases s f d :
  is_reply f d →
  (∃ o, _process_message s f = Ok (s, o))
  ∨ ∃ k fut, py_int_key (reply_id d) = Ok (Some k)
      ∧ pending_requests (ws s) !! k = Some fut
      ∧ (_process_message s f = Ok (pop k s, AlreadyDone k)
         ∨ (futures s !! fut = Some Pending
            ∧ _process_message s f
              = Ok (with_futures <[fut := FResult (JObj d)]> (pop k s), Resolved k))).
Proof.
  intros Hr.
  destruct (py_int_key (reply_id d)) as [[k|]|e] eqn:Hk.
  - destruct (pending_requests (ws s) !! k) as [fut|] eqn:Hp.
    + right. exists k, fut. split; [done|]. split; [done|].
      destruct (future_done s fut) eqn:Hd.
      * left. by eapply process_reply_done.
      * right. unfold future_done in Hd.
        destruct (futures s !! fut) as [[]|] eqn:Hf; simplify_eq/=.
        split; [done|]. by eapply process_reply_resolves.
    + left. eapply process_reply_unmatched; [done|].
    unfold unmatched. intros k' Hk'. rewrite Hk in Hk'. by simplify_eq.
  - left. eapply process_reply_unmatched; [done|].
    unfold unmatched. intros k' Hk'. rewrite Hk in Hk'. by simplify_eq.
  - left. eapply process_reply_unmatched; [done|].
    unfold unmatched. intros k' Hk'. rewrite Hk in Hk'. by simplify_eq.
Qed.

(** C9.  A call whose dict already has an ["id"] key: the dict is left as
    it is and written to the socket as it is, while the future is
    registered under the freshly incremented counter value.  When the
    dict's id is not equal (Python [==]) to that counter value, a reply
    frame that carries the dict's id leaves the caller's future pending
    and its table entry in place. *)
Theorem send_request_keeps_given_id s request d e :
  consistent s →
  dicts s !! request = Some d → d !! "id" = Some e →
  websocket (ws s) = Some Open → running (ws s) = true →
  let request_id := request_counter (ws s) + 1 in
  ∃ s1 fut,
    send_request_start s request = Some (s1, Waiting request_id fut)
    ∧ dicts s1 = dicts s
    ∧ wire s1 = wire s ++ [JObj d]
    ∧ pending_requests (ws s1) !! request_id = Some fut
    ∧ futures s1 !! fut = Some Pending
    ∧ (py_eq_int e request_id = false →
       ∀ f dd, is_reply f dd → reply_id dd = e →
         ∃ s2 o, _process_message s1 f = Ok (s2, o)
           ∧ futures s2 !! fut = Some Pending
           ∧ pending_requests (ws s2) !! request_id = Some fut).
Proof.
  intros Hs Hd Hid Hw Hr request_id.
  assert (add_id request_id d = d) as Hadd.
  { unfold add_id. rewrite Hid. by rewrite bool_decide_eq_true_2. }
  eexists _, _. split; [by apply start_open|]. fold request_id. simpl.
  rewrite Hadd, lookup_insert_eq, lookup_app_r, Nat.sub_diag by done.
  split; [by apply list_insert_id|]. do 3 (split; [done|]).
  intros Hne f dd Hf He.
  set (s1 := mkWorld _ _ _ _ _ _).
  destruct (process_reply_cases s1 f dd Hf) as [[o Ho]|(k & fut & Hk & Hp & Hcase)].
  { exists s1, o. split; [done|]. simpl.
    by rewrite lookup_insert_eq, lookup_app_r, Nat.sub_diag. }
  assert (k ≠ request_id) as Hkne.
  { intros ->. unfold py_eq_int in Hne. rewrite <- He, Hk in Hne.
    by rewrite bool_decide_eq_true_2 in Hne. }
  simpl in Hp. rewrite lookup_insert_ne in Hp by done.
  apply (pending_issued _ Hs) in Hp as [_ Hlt].
  destruct Hcase as [-> | [_ ->]]; eexists _, _; (split; [done|]); simpl.
  - rewrite lookup_delete_ne, lookup_insert_eq, lookup_app_r, Nat.sub_diag by done.
    done.
  - rewrite list_lookup_insert_ne by lia.
    rewrite lookup_delete_ne, lookup_insert_eq, lookup_app_r, Nat.sub_diag by done.
    done.
Qed.

Lemma send_request_keeps_given_id_witness :
  let d : obj := <["id" := JInt 77]> (info_request JNull) in
  ∃ s1 fut,
    send_request_start (connected_with d) 0 = Some (s1, Waiting 1 fut)
    ∧ wire s1 = [JObj d]
    ∧ ∃ s2 o, _process_message s1 (reply 77 ∅) = Ok (s2, o)
        ∧ futures s2 !! fut = Some Pending.
Proof.
  intros d.
  destruct (send_request_keeps_given_id (connected_with d) 0 d (JInt 77))
    as (s1 & fut & H1 & _ & H2 & _ & _ & H3).
  - apply reachable_consistent.
    exists [EConnect None; ENewDict d]. by vm_compute.
  - done.
  - by vm_compute.
  - done.
  - done.
  - exists s1, fut. split; [done|]. split; [done|].
    destruct (H3 eq_refl _ _ (reply_is_reply 77 ∅) (reply_id_insert 77 ∅))
      as (s2 & o & ? & ? & _).
    by exists s2, o.
Defined.

(** ** Frames that match nothing *)

Lemma swallowed s f :
  f = Malformed ∨ (∃ d, is_reply f d ∧ unmatched s (reply_id d)) →
  (∃ o, _process_message s f = Ok (s, o))
  ∧ (handler s = true → connected (ws s) = true → step s (ERecv (Ok f)) = Some s).
Proof.
  intros Hf.
  assert (∃ o, _process_message s f = Ok (s, o)) as [o Ho].
  { destruct Hf as [-> | (d & Hr & Hu)]; [by exists ParseFailure|].
    by eapply process_reply_unmatched. }
  split; [by exists o|]. intros Hh Hc. simpl. rewrite Hh. f_equal.
  unfold _message_handler. rewrite Ho. by apply while_test_connected.
Qed.

(** C7.  A frame that does not parse, or a reply whose id is equal to no
    key of the pending table: [_process_message] returns normally and the
    world is exactly as before, so every pending entry, every future and
    every caller is untouched; and the receive loop, if it is running,
    is still running after the frame. *)
Theorem unmatched_frame_is_swallowed s f :
  f = Malformed ∨ (∃ d, is_reply f d ∧ unmatched s (reply_id d)) →
  (∃ o, _process_message s f = Ok (s, o))
  ∧ (handler s = true → connected (ws s) = true → step s (ERecv (Ok f)) = Some s).
Proof. apply swallowed. Qed.

Lemma unmatched_frame_is_swallowed_witness :
  let s := connected_with ∅ in
  (∃ o, _process_message s (reply 5 ∅) = Ok (s, o))
  ∧ step s (ERecv (Ok (reply 5 ∅))) = Some s.
Proof.
  intros s.
  destruct (unmatched_frame_is_swallowed s (reply 5 ∅)) as [H1 H2].
  - right. eexists. split; [apply reply_is_reply|]. by intros k ?.
  - split; [done|]. by apply H2.
Defined.

(** ** Timeout *)

Lemma wake_timeout s t k fut :
  tasks s !! t = Some (Waiting k fut) → futures s !! fut = Some Pending →
  step s (EWake t TimedOut)
  = Some (with_tasks <[t := Raised (timed_out k)]>
            (pop k (with_futures <[fut := FCancelled]> s))).
Proof.
  intros Ht Hf. simpl. rewrite Ht. unfold send_request_resume, wait_for.
  by rewrite Hf.
Qed.

(** C3, as the code has it.  A call whose timeout elapses while its future
    is still pending: its table entry is removed and it raises
    [APIError("Request <id> timed out")], an [APIError], not a
    [TimeoutError].  A reply frame for the same id that arrives
    afterwards changes nothing, and the receive loop goes on. *)
Theorem timeout_removes_and_raises s t k fut :
  tasks s !! t = Some (Waiting k fut) → futures s !! fut = Some Pending →
  ∃ s1,
    step s (EWake t TimedOut) = Some s1
    ∧ pending_requests (ws s1) !! k = None
    ∧ tasks s1 !! t = Some (Raised (timed_out k))
    ∧ (∀ other, render other [Lit "Request "; Val (JInt k); Lit " timed out"]
                = "Request " +:+ pretty k +:+ " timed out")
    ∧ ∀ f d, is_reply f d → py_int_key (reply_id d) = Ok (Some k) →
        (∃ o, _process_message s1 f = Ok (s1, o))
        ∧ (handler s1 = true → connected (ws s1) = true →
           step s1 (ERecv (Ok f)) = Some s1).
Proof.
  intros Ht Hf. eexists. split; [by apply wake_timeout|].
  set (s1 := with_tasks _ _).
  assert (pending_requests (ws s1) !! k = None) as Hk by apply lookup_delete_eq.
  split; [done|]. split.
  { simpl. apply list_lookup_insert_eq. by eapply lookup_lt_Some. }
  split; [done|]. intros f d Hr Hid.
  apply swallowed. right. exists d. split; [done|].
  intros k' Hk'. rewrite Hid in Hk'. by simplify_eq.
Qed.

Lemma timeout_removes_and_raises_witness :
  ∃ s s1,
    run initial one_call = Some s
    ∧ step s (EWake 0%nat TimedOut) = Some s1
    ∧ pending_requests (ws s1) !! 1 = None
    ∧ tasks s1 !! 0%nat = Some (Raised (timed_out 1)).
Proof.
  destruct (run initial one_call) as [s|] eqn:E; [|by vm_compute in E].
  destruct (timeout_removes_and_raises s 0 1 0) as (s1 & H1 & H2 & H3 & _).
  - vm_compute in E. by simplify_eq.
  - vm_compute in E. by simplify_eq.
  - by exists s, s1.
Defined.

(** C3 as stated fails: the exception the caller gets on timeout is an
    [APIError], which a handler for [TimeoutError] does not catch. *)
Lemma timeout_is_not_a_TimeoutError :
  ∃ s1, run initial (one_call ++ [EWake 0%nat TimedOut]) = Some s1
    ∧ tasks s1 !! 0%nat = Some (Raised (timed_out 1))
    ∧ tasks s1 !! 0%nat ≠ Some (Raised TimeoutError).
Proof.
  eexists. split; [by vm_compute|]. split; [done|]. by vm_compute.
Qed.

(** ** A reply reaches its caller *)

Lemma finish_check_response s k v :
  finish s k (check_response v)
  = (match check_response v with Ok _ => s | Raise _ => pop k s end,
     task_of (check_response v)).
Proof.
  destruct (check_response v) as [v'|e] eqn:E; simpl; [done|].
  unfold check_response, py_get in E.
  repeat (case_match; simplify_eq/=); done.
Qed.

(** A caller whose future holds a result leaves [send_request] with what
    [check_response] makes of the result. *)
Lemma wake_result s t k fut v :
  tasks s !! t = Some (Waiting k fut) → futures s !! fut = Some (FResult v) →
  step s (EWake t FutureDone)
  = Some (with_tasks <[t := task_of (check_response v)]>
            (match check_response v with Ok _ => s | Raise _ => pop k s end)).
Proof.
  intros Ht Hf. simpl. rewrite Ht. unfold send_request_resume, wait_for.
  rewrite Hf. simpl. by rewrite finish_check_response.
Qed.

Lemma check_response_object d r :
  default (JObj ∅) (d !! "response") = JObj r →
  check_response (JObj d)
  = if py_eq_str (default JNull (r !! "type")) "error"
    then Raise (APIError [Lit "API Error: ";
                          Val (default (JStr "Unknown error") (r !! "payload"))])
    else Ok (JObj d).
Proof. intros Hr. unfold check_response. simpl. rewrite Hr. simpl. by case_match. Qed.

(** C5.  A call in flight gets the reply frame for its id, the reply's
    ["response"] being an object (or absent), as in the wire format.  The
    frame resolves the call's future.  When the call resumes: if the
    response has type ["error"], it raises [APIError] with the message
    ["API Error: "] followed by the response's ["payload"] (["Unknown
    error"] if there is none), which for a string payload is that string;
    otherwise it returns the reply's data object, from which
    [send_ws_info_request] returns the response's ["payload"].  Either way
    the table entry is gone. *)
Theorem reply_error_or_payload s t k fut f d r :
  tasks s !! t = Some (Waiting k fut) →
  pending_requests (ws s) !! k = Some fut → futures s !! fut = Some Pending →
  is_reply f d → py_int_key (reply_id d) = Ok (Some k) →
  default (JObj ∅) (d !! "response") = JObj r →
  ∃ s1 s2,
    _process_message s f = Ok (s1, Resolved k)
    ∧ step s1 (EWake t FutureDone) = Some s2
    ∧ pending_requests (ws s2) !! k = None
    ∧ if py_eq_str (default JNull (r !! "type")) "error" then
        let error_msg := default (JStr "Unknown error") (r !! "payload") in
        tasks s2 !! t = Some (Raised (APIError [Lit "API Error: "; Val error_msg]))
        ∧ (∀ other msg, error_msg = JStr msg →
             render other [Lit "API Error: "; Val error_msg] = "API Error: " +:+ msg)
      else
        tasks s2 !! t = Some (Returned (JObj d))
        ∧ send_ws_info_request_return (Ok (JObj d))
          = Ok (default (JObj ∅) (r !! "payload")).
Proof.
  intros Ht Hp Hf Hr Hk Hresp.
  assert (t < length (tasks s))%nat as Hlt by (by eapply lookup_lt_Some).
  assert (fut < length (futures s))%nat as Hflt by (by eapply lookup_lt_Some).
  eexists _, _. split; [by eapply process_reply_resolves|].
  split; [apply wake_result with (k := k) (fut := fut) (v := JObj d)|].
  { done. }
  { simpl. by apply list_lookup_insert_eq. }
  rewrite (check_response_object _ _ Hresp).
  destruct (py_eq_str (default JNull (r !! "type")) "error"); simpl.
  - split; [apply lookup_delete_eq|].
    split; [by apply list_lookup_insert_eq|].
    intros other msg ->. unfold render. simpl. by rewrite append_empty_r.
  - split; [apply lookup_delete_eq|].
    split; [by apply list_lookup_insert_eq|].
    unfold send_ws_info_request_return. simpl. by rewrite Hresp.
Qed.

Lemma reply_error_or_payload_witness :
  ∃ s s1 s2,
    run initial three_calls = Some s
    ∧ _process_message s (Parsed (JObj {["channel" := JStr "post";
                                         "data" := JObj margin_error]}))
      = Ok (s1, Resolved 3)
    ∧ step s1 (EWake 2%nat FutureDone) = Some s2
    ∧ tasks s2 !! 2%nat
      = Some (Raised (APIError [Lit "API Error: "; Val (JStr "insufficient margin")]))
    ∧ render (λ _, EmptyString) [Lit "API Error: "; Val (JStr "insufficient margin")]
      = "API Error: insufficient margin"%string.
Proof.
  destruct (run initial three_calls) as [s|] eqn:E; [|by vm_compute in E].
  destruct (reply_error_or_payload s 2 3 2
              (Parsed (JObj {["channel" := JStr "post"; "data" := JObj margin_error]}))
              margin_error
              {["type" := JStr "error"; "payload" := JStr "insufficient margin"]})
    as (s1 & s2 & H1 & H2 & _ & H3).
  - vm_compute in E. by simplify_eq.
  - vm_compute in E. simplify_eq. by vm_compute.
  - vm_compute in E. by simplify_eq.
  - eexists. split; [done|]. split; by vm_compute.
  - by vm_compute.
  - by vm_compute.
  - exists s, s1, s2. split; [done|]. split; [done|]. split; [done|].
    change (py_eq_str _ _) with true in H3. destruct H3 as [H3 H4].
    split; [exact H3|]. by apply H4.
Defined.

(** ** Concurrent calls *)

(** What [n] calls issued back to back on an open connection leave: call
    [i] waits as task [T + i] with id [c + 1 + i] and future [F + i]. *)
Lemma run_calls reqs s :
  websocket (ws s) = Some Open → running (ws s) = true →
  Forall (λ r, is_Some (dicts s !! r)) reqs →
  ∃ s',
    run s (ECall <$> reqs) = Some s'
    ∧ websocket (ws s') = Some Open ∧ running (ws s') = true
    ∧ handler s' = handler s
    ∧ (∀ k, k ≤ request_counter (ws s) →
         pending_requests (ws s') !! k = pending_requests (ws s) !! k)
    ∧ (∀ j, (j < length (futures s))%nat → futures s' !! j = futures s !! j)
    ∧ (∀ j, (j < length (tasks s))%nat → tasks s' !! j = tasks s !! j)
    ∧ ∀ i, (i < length reqs)%nat →
        pending_requests (ws s') !! (request_counter (ws s) + 1 + Z.of_nat i)
          = Some (length (futures s) + i)%nat
        ∧ futures s' !! (length (futures s) + i)%nat = Some Pending
        ∧ tasks s' !! (length (tasks s) + i)%nat
          = Some (Waiting (request_counter (ws s) + 1 + Z.of_nat i)
                          (length (futures s) + i)%nat).
Proof.
  revert s. induction reqs as [|request reqs IH]; intros s Hw Hr Hreqs.
  { exists s. simpl. repeat split; try done; simpl in *; lia. }
  apply Forall_cons in Hreqs as [[d Hd] Hreqs].
  pose proof (start_open _ _ _ Hd Hw Hr) as Hstart. simpl in Hstart.
  set (c := request_counter (ws s)) in *.
  set (s1 := with_tasks (λ ts, ts ++ [Waiting (c + 1) (length (futures s))])
               (mkWorld
                  (mkClient (Some Open) true (c + 1)
                     (<[c + 1 := length (futures s)]> (pending_requests (ws s))))
                  (futures s ++ [Pending])
                  (<[request := add_id (c + 1) d]> (dicts s))
                  (wire s ++ [JObj (add_id (c + 1) d)])
                  (handler s) (tasks s))).
  destruct (IH s1) as (s' & Hrun & Hw' & Hr' & Hh & Hold & Hfut & Htask & Hnew).
  { done. }
  { done. }
  { eapply Forall_impl; [exact Hreqs|]. intros r [x Hx]. simpl.
    apply lookup_lt_is_Some. rewrite length_insert. by eapply lookup_lt_Some. }
  exists s'. simpl in Hold, Hfut, Htask, Hnew.
  rewrite length_app in Hfut, Htask. setoid_rewrite length_app in Hnew.
  simpl in Hfut, Htask, Hnew.
  split. { simpl. rewrite Hstart. simpl. exact Hrun. }
  do 3 (split; [done|]).
  split. { intros k Hk. rewrite Hold by lia. by rewrite lookup_insert_ne by lia. }
  split. { intros j Hj. rewrite Hfut by lia. by apply lookup_app_l. }
  split. { intros j Hj. rewrite Htask by lia. by apply lookup_app_l. }
  intros [|i] Hi.
  - rewrite Z.add_0_r, Nat.add_0_r.
    rewrite Hold, Hfut, Htask by lia.
    rewrite ?Nat.add_0_r.
    rewrite lookup_insert_eq, !lookup_app_r, !Nat.sub_diag by done. done.
  - simpl in Hi. destruct (Hnew i ltac:(lia)) as (H1 & H2 & H3).
    replace (c + 1 + Z.of_nat (S i)) with (c + 1 + 1 + Z.of_nat i) by lia.
    replace (length (futures s) + S i)%nat with (length (futures s) + 1 + i)%nat by lia.
    replace (length (tasks s) + S i)%nat with (length (tasks s) + 1 + i)%nat by lia.
    done.
Qed.

Lemma run_cons s ev evs : run s (ev :: evs) = step s ev ≫= λ s', run s' evs.
Proof. done. Qed.

Lemma run_app s evs1 evs2 : run s (evs1 ++ evs2) = run s evs1 ≫= λ s', run s' evs2.
Proof.
  revert s. induction evs1 as [|ev evs1 IH]; intros s; [done|].
  rewrite <- app_comm_cons, !run_cons. destruct (step s ev); simpl; [apply IH|done].
Qed.

(** Replies for distinct calls in flight, delivered in any order: each
    resolves the future of its own call and nothing else. *)
Lemma run_replies c F (replies : list (nat * obj * frame)) s :
  handler s = true → connected (ws s) = true →
  NoDup replies.*1.*1 →
  (∀ i d f, (i, d, f) ∈ replies →
     pending_requests (ws s) !! (c + Z.of_nat i) = Some (F + i)%nat
     ∧ futures s !! (F + i)%nat = Some Pending
     ∧ is_reply f d ∧ reply_id d = JInt (c + Z.of_nat i)) →
  ∃ s',
    run s (ERecv ∘ Ok <$> replies.*2) = Some s'
    ∧ tasks s' = tasks s
    ∧ (∀ i d f, (i, d, f) ∈ replies →
         futures s' !! (F + i)%nat = Some (FResult (JObj d))
         ∧ pending_requests (ws s') !! (c + Z.of_nat i) = None)
    ∧ (∀ j, j ∉ replies.*1.*1 →
         futures s' !! (F + j)%nat = futures s !! (F + j)%nat
         ∧ pending_requests (ws s') !! (c + Z.of_nat j)
           = pending_requests (ws s) !! (c + Z.of_nat j)).
Proof.
  revert s. induction replies as [|[[i d] f] replies IH]; intros s Hh Hc Hnd Hall.
  { exists s. split; [done|]. split; [done|]. split; [|done].
    intros i d f Hin. by apply elem_of_nil in Hin. }
  simpl in Hnd. apply NoDup_cons in Hnd as [Hi Hnd].
  destruct (Hall i d f) as (Hp & Hf & Hr & Hid); [by left|].
  assert (_process_message s f
          = Ok (with_futures <[(F + i)%nat := FResult (JObj d)]> (pop (c + Z.of_nat i) s),
                Resolved (c + Z.of_nat i))) as Hproc.
  { eapply process_reply_resolves; try done. by rewrite Hid. }
  set (s1 := with_futures _ _) in Hproc.
  assert (step s (ERecv (Ok f)) = Some s1) as Hstep.
  { simpl. rewrite Hh. f_equal. unfold _message_handler.
    rewrite Hproc. apply while_test_connected. exact Hc. }
  assert (∀ j, j ≠ i →
            futures s1 !! (F + j)%nat = futures s !! (F + j)%nat
            ∧ pending_requests (ws s1) !! (c + Z.of_nat j)
              = pending_requests (ws s) !! (c + Z.of_nat j)) as Hother.
  { intros j Hj. simpl. rewrite list_lookup_insert_ne by lia.
    by rewrite lookup_delete_ne by lia. }
  destruct (IH s1) as (s' & Hrun & Htasks & Hres & Hframe); [done|done|done| |].
  { intros j d' f' Hin.
    assert (j ≠ i) as Hj.
    { intros ->. apply Hi. apply list_elem_of_fmap. exists (i, d'). split; [done|].
      apply list_elem_of_fmap. by exists (i, d', f'). }
    destruct (Hother j Hj) as [-> ->]. apply Hall. by right. }
  exists s'. split.
  { rewrite !fmap_cons, run_cons.
    change ((ERecv ∘ Ok) (i, d, f).2) with (ERecv (Ok f)). by rewrite Hstep. }
  split; [done|]. split.
  - intros j d' f' [Heq|Hin]%elem_of_cons; [|by apply (Hres j d' f')].
    simplify_eq. destruct (Hframe i Hi) as [-> ->]. simpl.
    rewrite lookup_delete_eq. split; [|done].
    apply list_lookup_insert_eq. by eapply lookup_lt_Some.
  - intros j Hj. simpl in Hj. apply not_elem_of_cons in Hj as [Hji Hj].
    destruct (Hframe j Hj) as [-> ->]. by apply Hother.
Qed.

(** What [send_request] makes of a reply whose data object is [d], line
    by line of [# Check for error response]. *)
Lemma check_response_cases d :
  task_of (check_response (JObj d))
  = match default (JObj ∅) (d !! "response") with
    | JObj r =>
        if py_eq_str (default JNull (r !! "type")) "error"
        then Raised (APIError [Lit "API Error: ";
                               Val (default (JStr "Unknown error") (r !! "payload"))])
        else Returned (JObj d)
    | _ => Raised AttributeError
    end.
Proof.
  unfold check_response. simpl.
  destruct (default (JObj ∅) (d !! "response")) as [| | | | | |r]; simpl; try done.
  by destruct (py_eq_str (default JNull (r !! "type")) "error").
Qed.

(** C1.  On an open connection with the receive loop running, [n] calls
    are issued before any reply arrives; call [i] is assigned id
    [c + 1 + i].  Then one reply frame per call arrives, in any order, the
    frame for call [i] carrying that id.  Each call's future is resolved
    with the data object of the frame that carries its own id, and when
    the call resumes, [send_request] returns that very object, the reply
    to its own request.  The two exits that are not a return are the ones
    the reply itself asks for: a response of type ["error"] is raised as
    [APIError("API Error: <payload>")], and a ["response"] that is not an
    object makes [response.get] fail. *)
Theorem concurrent_calls_get_own_replies s reqs (replies : list (nat * obj * frame)) :
  websocket (ws s) = Some Open → running (ws s) = true → handler s = true →
  Forall (λ r, is_Some (dicts s !! r)) reqs →
  replies.*1.*1 ≡ₚ seq 0 (length reqs) →
  (∀ i d f, (i, d, f) ∈ replies →
     is_reply f d ∧ reply_id d = JInt (request_counter (ws s) + 1 + Z.of_nat i)) →
  ∃ s1 s2,
    run s (ECall <$> reqs) = Some s1
    ∧ run s1 (ERecv ∘ Ok <$> replies.*2) = Some s2
    ∧ ∀ i d f, (i, d, f) ∈ replies →
        let t := (length (tasks s) + i)%nat in
        let fut := (length (futures s) + i)%nat in
        let k := request_counter (ws s) + 1 + Z.of_nat i in
        tasks s1 !! t = Some (Waiting k fut)
        ∧ futures s2 !! fut = Some (FResult (JObj d))
        ∧ ∃ s3, step s2 (EWake t FutureDone) = Some s3
                ∧ tasks s3 !! t
                  = Some (match default (JObj ∅) (d !! "response") with
                          | JObj r =>
                              if py_eq_str (default JNull (r !! "type")) "error"
                              then Raised (APIError
                                     [Lit "API Error: ";
                                      Val (default (JStr "Unknown error") (r !! "payload"))])
                              else Returned (JObj d)
                          | _ => Raised AttributeError
                          end).
Proof.
  intros Hw Hr Hh Hreqs Hperm Hall.
  destruct (run_calls reqs s Hw Hr Hreqs)
    as (s1 & Hrun1 & Hw1 & Hr1 & Hh1 & _ & _ & _ & Hnew).
  assert (∀ i d f, (i, d, f) ∈ replies → (i < length reqs)%nat) as Hlt.
  { intros i d f Hin.
    assert (i ∈ seq 0 (length reqs)) as Hi.
    { rewrite <- Hperm. apply list_elem_of_fmap. exists (i, d). split; [done|].
      apply list_elem_of_fmap. by exists (i, d, f). }
    apply elem_of_seq in Hi. lia. }
  destruct (run_replies (request_counter (ws s) + 1) (length (futures s)) replies s1)
    as (s2 & Hrun2 & Htasks & Hres & _).
  { by rewrite Hh1. }
  { unfold connected. by rewrite Hw1, Hr1. }
  { rewrite Hperm. apply NoDup_seq. }
  { intros i d f Hin. destruct (Hnew i (Hlt _ _ _ Hin)) as (H1 & H2 & _).
    destruct (Hall _ _ _ Hin) as [H3 H4]. done. }
  exists s1, s2. split; [done|]. split; [done|].
  intros i d f Hin t fut k.
  destruct (Hnew i (Hlt _ _ _ Hin)) as (_ & _ & Ht).
  destruct (Hres _ _ _ Hin) as [Hf _].
  split; [done|]. split; [done|].
  eexists. split.
  - apply wake_result with (k := k) (fut := fut); [by rewrite Htasks|done].
  - rewrite <- check_response_cases. simpl. apply list_lookup_insert_eq.
    assert (length (tasks (match check_response (JObj d) with
                           | Ok _ => s2 | Raise _ => pop k s2 end))
            = length (tasks s1)) as ->.
    { rewrite <- Htasks. by destruct (check_response (JObj d)). }
    by eapply lookup_lt_Some.
Qed.

Lemma concurrent_calls_get_own_replies_witness :
  ∃ s s1 s2 sa sb,
    run initial two_dicts = Some s
    ∧ run s [ECall 0%nat; ECall 1%nat] = Some s1
    ∧ run s1 [ERecv (Ok (reply 2 (answer "b"))); ERecv (Ok (reply 1 (answer "a")))]
      = Some s2
    ∧ futures s2 !! 0%nat = Some (FResult (JObj (<["id" := JInt 1]> (answer "a"))))
    ∧ futures s2 !! 1%nat = Some (FResult (JObj (<["id" := JInt 2]> (answer "b"))))
    ∧ step s2 (EWake 0%nat FutureDone) = Some sa
    ∧ tasks sa !! 0%nat = Some (Returned (JObj (<["id" := JInt 1]> (answer "a"))))
    ∧ step s2 (EWake 1%nat FutureDone) = Some sb
    ∧ tasks sb !! 1%nat = Some (Returned (JObj (<["id" := JInt 2]> (answer "b")))).
Proof.
  destruct (run initial two_dicts) as [s|] eqn:E; [|by vm_compute in E].
  vm_compute in E. injection E as <-.
  set (s := mkWorld _ _ _ _ _ _).
  destruct (concurrent_calls_get_own_replies s [0; 1]%nat
              [(1%nat, <["id" := JInt 2]> (answer "b"), reply 2 (answer "b"));
               (0%nat, <["id" := JInt 1]> (answer "a"), reply 1 (answer "a"))])
    as (s1 & s2 & H1 & H2 & H3).
  - done.
  - done.
  - done.
  - repeat constructor; by eexists.
  - simpl. apply perm_swap.
  - intros i d f [?|[?|?%elem_of_nil]%elem_of_cons]%elem_of_cons; [| |done];
      simplify_eq; (split; [apply reply_is_reply|apply reply_id_insert]).
  - destruct (H3 1%nat _ _ ltac:(left)) as (_ & Hb & sb & Hsb & Htb).
    destruct (H3 0%nat _ _ ltac:(right; left)) as (_ & Ha & sa & Hsa & Hta).
    exists s, s1, s2, sa, sb. split; [done|]. split; [done|]. split; [done|].
    split; [done|]. split; [done|]. split; [exact Hsa|]. split; [exact Hta|].
    split; [exact Hsb|]. exact Htb.
Defined.

Lemma resume_shape_pending s t w s' :
  step s (EWake t w) = Some s' → pending_requests (ws s) = ∅ →
  pending_requests (ws s') = pending_requests (ws s).
Proof.
  simpl. intros H He.
  destruct (tasks s !! t) as [[k fut| |]|]; simplify_eq/=.
  destruct (send_request_resume s k fut w) as [[s1 t']|] eqn:E; simplify_eq/=.
  apply resume_shape in E as (popped & cancelled & -> & _).
  destruct popped, cancelled; simpl; rewrite ?He; try done; apply delete_empty.
Qed.

(** ** Disconnect *)

Lemma wake_exception s t k fut e :
  tasks s !! t = Some (Waiting k fut) → futures s !! fut = Some (FException e) →
  step s (EWake t FutureDone)
  = Some (with_tasks <[t := Raised (send_request_except s k e).2]>
            (send_request_except s k e).1).
Proof.
  intros Ht Hf. simpl. rewrite Ht. unfold send_request_resume, wait_for.
  rewrite Hf. simpl. by destruct (send_request_except s k e).
Qed.

Lemma disconnect_idempotent s : disconnect (disconnect s) = disconnect s.
Proof. destruct s as [[[w|] r c p] fs ds wi h ts]; reflexivity. Qed.

(** ** Subscriptions *)

Lemma process_ack s f : is_ack f → ∃ o, _process_message s f = Ok (s, o).
Proof.
  intros (m & -> & Hc). simpl. unfold process_body. simpl. rewrite Hc. simpl.
  destruct (process_subscription_response (JObj m)) as [o|e] eqn:E; simpl; [eauto|].
  apply process_subscription_response_raise in E. rewrite E. eauto.
Qed.

Lemma send_control_open s method channel params :
  websocket (ws s) = Some Open →
  send_control s method channel params
  = (with_wire (λ w, w ++ [control_frame method channel params]) s, Ok ()).
Proof. intros Hw. unfold send_control, websocket_send. by rewrite Hw. Qed.

(** C4, as the code has it.  The client keeps no subscription registry.
    On an open connection [subscribe_to_channel] writes one frame
    [{"method": "subscribe", "subscription": {"type": channel, **params}}]
    to the socket and returns; [unsubscribe_from_channel] does the same
    with method ["unsubscribe"]; neither changes anything else.  So after
    a subscribe and the matching unsubscribe, with or without an
    acknowledgment frame processed in between, the client, the futures,
    the callers and their dicts are as before the subscribe, and the
    socket has been written the two frames. *)
Theorem subscribe_unsubscribe_only_send s channel params (ack : option frame) :
  websocket (ws s) = Some Open →
  from_option is_ack True ack →
  ∃ s1 s2 s3,
    subscribe_to_channel s channel params = (s1, Ok ())
    ∧ s1 = with_wire (λ w, w ++ [control_frame "subscribe" channel params]) s
    ∧ from_option (λ f, ∃ o, _process_message s1 f = Ok (s2, o)) (s2 = s1) ack
    ∧ unsubscribe_from_channel s2 channel params = (s3, Ok ())
    ∧ s3 = with_wire (λ w, w ++ [control_frame "subscribe" channel params;
                                 control_frame "unsubscribe" channel params]) s.
Proof.
  intros Hw Hack.
  exists (with_wire (λ w, w ++ [control_frame "subscribe" channel params]) s).
  eexists _, _. split; [by apply send_control_open|]. split; [done|].
  split.
  { destruct ack as [f|]; simpl in *; [|done]. by apply process_ack. }
  split; [by apply send_control_open|].
  unfold with_wire. simpl. by rewrite <- app_assoc.
Qed.

Lemma subscribe_unsubscribe_only_send_witness :
  let s := connected_with ∅ in
  ∃ s1 s3,
    subscribe_to_channel s "trades" sol_trades = (s1, Ok ())
    ∧ unsubscribe_from_channel s1 "trades" sol_trades = (s3, Ok ())
    ∧ ws s3 = ws s
    ∧ wire s3 = [control_frame "subscribe" "trades" sol_trades;
                 control_frame "unsubscribe" "trades" sol_trades].
Proof.
  intros s.
  destruct (subscribe_unsubscribe_only_send s "trades" sol_trades None)
    as (s1 & s2 & s3 & H1 & _ & H2 & H3 & H4); [done|done|].
  simpl in H2. subst s2. exists s1, s3. split; [done|]. split; [done|].
  by rewrite H4.
Defined.

(** C4 as stated fails: a subscribe call records nothing.  After it every
    attribute of the client, and everything else but the wire, is what it
    was; so whatever is read off the client as its registry holds the
    pair after the call only if it held it before. *)
Lemma subscribe_records_nothing :
  let s := connected_with ∅ in
  let s1 := (subscribe_to_channel s "trades" sol_trades).1 in
  ws s1 = ws s ∧ futures s1 = futures s ∧ dicts s1 = dicts s
  ∧ tasks s1 = tasks s ∧ handler s1 = handler s
  ∧ ∀ registry : WebSocketClient → list (string * option obj),
      registry (ws s) = [] → ("trades"%string, sol_trades) ∉ registry (ws s1).
Proof.
  simpl. do 5 (split; [done|]). intros registry ->. apply not_elem_of_nil.
Qed.

(** ** Cancellation *)

(** C6: the exit the code misses.  A call is waiting for its reply and its
    task is cancelled.  [asyncio.CancelledError] is not an [Exception], so
    neither [except] clause of [send_request] runs: the call ends with
    [CancelledError] and its entry is still in the table, with a future
    nobody waits on. *)
Theorem cancelled_call_leaves_entry :
  ∃ s1,
    run initial (one_call ++ [EWake 0%nat Cancellation]) = Some s1
    ∧ tasks s1 !! 0%nat = Some (Raised CancelledError)
    ∧ pending_requests (ws s1) !! 1 = Some 0%nat
    ∧ futures s1 !! 0%nat = Some FCancelled.
Proof. eexists. split; [by vm_compute|]. by vm_compute. Qed.

(** ** Who owns a table entry *)

Lemma exclusive_initial : exclusive initial.
Proof. split; simpl; intros; by simplify_map_eq. Qed.

Lemma frame_effect_exclusive s s' o :
  frame_effect s s' o → exclusive s → exclusive s'.
Proof.
  intros [o'|k fut Hp Hd|k fut v Hp Hf] [H5 H6 H7]; [done|..].
  - split; simpl; auto.
    + intros k1 k2 f [? ?]%lookup_delete_Some [? ?]%lookup_delete_Some. eauto.
    + intros t k' f f' Ht [? ?]%lookup_delete_Some. eauto.
  - split; simpl; auto.
    + intros k1 k2 f [? ?]%lookup_delete_Some [? ?]%lookup_delete_Some. eauto.
    + intros t k' f f' Ht [Hne Hk]%lookup_delete_Some.
      destruct (H7 _ _ _ _ Ht Hk) as [-> Hpend]. split; [done|].
      rewrite list_lookup_insert_ne; [done|]. intros ->. eauto.
Qed.

Lemma handler_finally_exclusive s : exclusive s → exclusive (handler_finally s).
Proof. intros [H5 H6 H7]. split; simpl; auto; intros; by simplify_map_eq. Qed.

Lemma call_exclusive s request s' t :
  send_request_start s request = Some (s', t) →
  consistent s → exclusive s → exclusive (with_tasks (λ ts, ts ++ [t]) s').
Proof.
  intros H [H0 H1 H2 H3 H4] [H5 H6 H7].
  assert (∀ e i x, (tasks s ++ [Raised e]) !! i = Some (Waiting x.1 x.2) →
            tasks s !! i = Some (Waiting x.1 x.2)) as Hsnoc.
  { intros e i x [?| [_ Hl]]%lookup_app_Some; [done|].
    destruct (i - length (tasks s))%nat; by simplify_eq/=. }
  destruct (start_cases _ _ _ _ H) as (d & Hd & [(Hc & -> & ->)|[(Hw & Hr & E)|(Hw & Hr & E)]]).
  - split; simpl; auto.
    + intros t1 t2 k1 k2 fut Ht1%(Hsnoc _ _ (k1, fut)) Ht2%(Hsnoc _ _ (k2, fut)). eauto.
    + intros t k fut fut' Ht%(Hsnoc _ _ (k, fut)). eauto.
  - rewrite (start_open _ _ _ Hd Hw Hr) in E. simplify_eq. clear H.
    set (c := request_counter (ws s)) in *.
    assert (∀ t k fut, (tasks s ++ [Waiting (c + 1) (length (futures s))]) !! t = Some (Waiting k fut) →
              tasks s !! t = Some (Waiting k fut) ∨
              (t = length (tasks s) ∧ k = c + 1 ∧ fut = length (futures s))) as Hnew.
    { intros t k fut [?| [Hge Hl]]%lookup_app_Some; [by left|right].
      destruct (t - length (tasks s))%nat eqn:E; simplify_eq/=. split; [lia|done]. }
    split; simpl.
    + intros t1 t2 k1 k2 fut [Ht1|(-> & -> & ->)]%Hnew [Ht2|(-> & ? & ?)]%Hnew; eauto.
      * apply H2 in Ht1. lia.
      * apply H2 in Ht2. lia.
    + intros k1 k2 fut [[<- <-]|[? Hk1]]%lookup_insert_Some
        [[<- ?]|[? Hk2]]%lookup_insert_Some; eauto.
      * apply H1 in Hk2. lia.
      * apply H1 in Hk1. lia.
    + intros t k fut fut' [Ht|(-> & -> & ->)]%Hnew.
      * pose proof (H2 _ _ _ Ht) as [? ?].
        rewrite lookup_insert_ne by lia. intros Hk.
        destruct (H7 _ _ _ _ Ht Hk) as [-> ?]. split; [done|].
        by rewrite lookup_app_l.
      * rewrite lookup_insert_eq. intros ?. simplify_eq.
        by rewrite lookup_app_r, Nat.sub_diag.
  - rewrite (start_closed _ _ _ Hd Hw Hr) in E. simplify_eq. clear H.
    set (c := request_counter (ws s)) in *.
    split; simpl.
    + intros t1 t2 k1 k2 fut Ht1%(Hsnoc _ _ (k1, fut)) Ht2%(Hsnoc _ _ (k2, fut)). eauto.
    + intros k1 k2 fut [? [[? ?]|[? Hk1]]%lookup_insert_Some]%lookup_delete_Some
        [? [[? ?]|[? Hk2]]%lookup_insert_Some]%lookup_delete_Some; try done. eauto.
    + intros t k fut fut' Ht%(Hsnoc _ _ (k, fut))
        [? [[? ?]|[? Hk]]%lookup_insert_Some]%lookup_delete_Some; [done|].
      pose proof (H2 _ _ _ Ht) as [? ?].
      destruct (H7 _ _ _ _ Ht Hk) as [-> ?]. split; [done|].
      by rewrite lookup_app_l.
Qed.

Lemma resume_exclusive s t k fut w s' t' :
  tasks s !! t = Some (Waiting k fut) →
  send_request_resume s k fut w = Some (s', t') →
  exclusive s → exclusive (with_tasks <[t := t']> s').
Proof.
  intros Ht (popped & cancelled & -> & Hc & Hw)%resume_shape [H5 H6 H7].
  set (s1 := (if popped then pop k else id)
               ((if cancelled then with_futures <[fut := FCancelled]> else id) s)).
  assert (tasks s1 = tasks s) as Htasks by (by destruct popped, cancelled).
  assert (∀ f2, f2 ≠ fut → futures s1 !! f2 = futures s !! f2) as Hfut.
  { intros f2 Hne. destruct popped, cancelled; simpl; rewrite ?list_lookup_insert_ne; done. }
  assert (∀ k2 f2, pending_requests (ws s1) !! k2 = Some f2 →
            pending_requests (ws s) !! k2 = Some f2) as Hsub.
  { intros k2 f2. destruct popped, cancelled; simpl; try done;
      by intros [? ?]%lookup_delete_Some. }
  assert (∀ t2 k2 f2, <[t := t']> (tasks s) !! t2 = Some (Waiting k2 f2) →
            t2 ≠ t ∧ tasks s !! t2 = Some (Waiting k2 f2)) as Hold.
  { intros t2 k2 f2 Hl. destruct (decide (t2 = t)) as [->|Hne].
    - rewrite list_lookup_insert_eq in Hl by (by eapply lookup_lt_Some).
      by simplify_eq.
    - by rewrite list_lookup_insert_ne in Hl. }
  clearbody s1. split; simpl; rewrite ?Htasks.
  - intros t1 t2 k1 k2 f [_ Hl1]%Hold [_ Hl2]%Hold. eauto.
  - intros k1 k2 f Hk1%Hsub Hk2%Hsub. eauto.
  - intros t2 k2 f2 f' [Hne Hl]%Hold Hk%Hsub.
    destruct (H7 _ _ _ _ Hl Hk) as [-> Hp]. split; [done|].
    rewrite Hfut; [done|]. intros ->. eauto.
Qed.

Lemma step_exclusive s ev s' :
  step s ev = Some s' → consistent s → exclusive s → exclusive s'.
Proof.
  destruct ev as [failure| | |d|request|t w|recv|channel params|channel params];
    simpl; intros H Hs Hx.
  - destruct (handler s); [done|]. simplify_eq.
    destruct failure; simpl; [done|]. by destruct Hx.
  - simplify_eq. destruct (disconnect_shape s) as [-> | ->]; by destruct Hx.
  - destruct (websocket (ws s)) as [[]|]; simplify_eq. by destruct Hx.
  - simplify_eq. by destruct Hx.
  - destruct (send_request_start s request) as [[s1 t]|] eqn:E; simplify_eq/=.
    by eapply call_exclusive.
  - destruct (tasks s !! t) as [[k fut| |]|] eqn:Ht; simplify_eq/=.
    destruct (send_request_resume s k fut w) as [[s1 t']|] eqn:E; simplify_eq/=.
    by eapply resume_exclusive.
  - destruct (handler s); simplify_eq. unfold _message_handler.
    assert (∀ s0, exclusive s0 → exclusive (while_test s0)) as Hw.
    { intros s0 H0.
      destruct (while_test_cases s0) as [-> | ->]; auto using handler_finally_exclusive. }
    assert (∀ e, exclusive (handler_except s e)) as He.
    { intros e. unfold handler_except.
      destruct e; simpl; auto using handler_finally_exclusive. }
    destruct recv as [message|e]; [|done].
    destruct (process_message_effect s message) as (s1 & o & -> & Hfe).
    apply Hw. by eapply frame_effect_exclusive.
  - simplify_eq. unfold subscribe_to_channel.
    destruct (send_control_shape s "subscribe" channel params) as [-> | ->];
      [done|by destruct Hx].
  - simplify_eq. unfold unsubscribe_from_channel.
    destruct (send_control_shape s "unsubscribe" channel params) as [-> | ->];
      [done|by destruct Hx].
Qed.

Lemma reachable_exclusive s : reachable s → exclusive s.
Proof.
  intros [evs H].
  enough (consistent s ∧ exclusive s) as [_ ?] by done.
  revert H. generalize consistent_initial exclusive_initial. generalize initial.
  induction evs as [|ev evs IH]; simpl; intros s0 Hc Hx H; [by simplify_eq|].
  destruct (step s0 ev) as [s1|] eqn:E; simplify_eq/=.
  eauto using step_consistent, step_exclusive.
Qed.

(** Every exit of [send_request] but cancellation leaves the call's id
    out of the table: on timeout and on a raised [Exception] the call pops
    it, and when the future was resolved the receive loop had popped it. *)
Lemma exit_removes_entry s t k fut w s' :
  reachable s → tasks s !! t = Some (Waiting k fut) →
  step s (EWake t w) = Some s' → w ≠ Cancellation →
  pending_requests (ws s') !! k = None.
Proof.
  intros Hr Ht H Hw. pose proof (reachable_exclusive _ Hr) as [_ _ H7].
  simpl in H. rewrite Ht in H.
  destruct (send_request_resume s k fut w) as [[s1 t']|] eqn:E; simplify_eq/=.
  unfold send_request_resume, wait_for in E.
  destruct (futures s !! fut) as [f|] eqn:Hf; simpl in E; [|done].
  assert (f ≠ Pending → pending_requests (ws s) !! k = None) as Hgone.
  { intros Hne. destruct (pending_requests (ws s) !! k) as [fut'|] eqn:Hk; [|done].
    destruct (H7 _ _ _ _ Ht Hk) as [_ ?]. by simplify_eq. }
  destruct w, f; simpl in E; try done.
  - destruct (finish_shape s k (check_response v)) as (p & t0 & E0 & _).
    rewrite E0 in E. simplify_eq.
    destruct p; simpl; [apply lookup_delete_eq|by apply Hgone].
  - destruct (finish_shape s k (Raise e)) as (p & t0 & E0 & _).
    simpl in E0. rewrite E0 in E. simplify_eq.
    destruct p; simpl; [apply lookup_delete_eq|by apply Hgone].
  - simplify_eq. by apply Hgone.
  - simplify_eq. simpl. apply lookup_delete_eq.
Qed.

(** A call whose send fails leaves no entry either. *)
Lemma failed_send_removes_entry s request d :
  dicts s !! request = Some d →
  websocket (ws s) = Some Closed → running (ws s) = true →
  ∃ s', send_request_start s request = Some (s', Raised ConnectionClosed)
    ∧ pending_requests (ws s') !! (request_counter (ws s) + 1) = None.
Proof.
  intros Hd Hw Hr. eexists. split; [by apply start_closed|].
  simpl. apply lookup_delete_eq.
Qed.

(** Cancellation is the exit that keeps it. *)
Lemma cancellation_keeps_entry s t k fut :
  reachable s → tasks s !! t = Some (Waiting k fut) → futures s !! fut = Some Pending →
  ∃ s', step s (EWake t Cancellation) = Some s'
    ∧ tasks s' !! t = Some (Raised CancelledError)
    ∧ pending_requests (ws s') !! k = Some fut.
Proof.
  intros Hr Ht Hf. pose proof (reachable_consistent _ Hr) as Hs.
  eexists. split.
  { simpl. rewrite Ht. unfold send_request_resume, wait_for. by rewrite Hf. }
  simpl. split; [apply list_lookup_insert_eq; by eapply lookup_lt_Some|].
  by eapply waiting_registered.
Qed.

(** ** Disconnect: the whole call *)

Lemma disconnect_call_connected s recv :
  is_Some (websocket (ws s)) → handler s = true →
  disconnect_call s recv
  = _message_handler
      (with_ws (set_websocket (Some Closed)) (with_ws (set_running false) s)) recv.
Proof.
  intros [c Hc] Hh. unfold disconnect_call, disconnect. simpl. rewrite Hc. simpl.
  by rewrite Hh.
Qed.

(** The call as two steps of the interleaving: [disconnect] up to its
    suspension, then the last turn of the receive loop. *)
Lemma disconnect_call_run s recv :
  is_Some (websocket (ws s)) → handler s = true →
  run s [EDisconnect; ERecv recv] = Some (disconnect_call s recv).
Proof.
  intros Hw Hh. rewrite (disconnect_call_connected _ _ Hw Hh).
  destruct Hw as [c Hc]. simpl. unfold disconnect. simpl. rewrite Hc. simpl.
  by rewrite Hh.
Qed.

(** C2, as the code has it.  [disconnect] on a client with a connection
    and a running receive loop.  When the call returns, [running] is
    cleared, the connection is closed, the receive loop has ended and the
    table is empty.  The callers are still suspended, and none is left
    waiting on an unresolved future: a call whose reply was the frame
    still on its way when the connection was closed has its future
    resolved with that reply; every other call that was waiting on an
    unresolved future has it failed with [Exception("Connection
    closed")], a plain [Exception], which is what the call raises when it
    resumes.  A second [disconnect] changes nothing, and without a
    connection [disconnect] only clears [running], which on a client that
    never connected changes nothing either. *)
Theorem disconnect_fails_pending s recv :
  reachable s → handler s = true → is_Some (websocket (ws s)) →
  let s2 := disconnect_call s recv in
  running (ws s2) = false
  ∧ websocket (ws s2) = Some Closed
  ∧ handler s2 = false
  ∧ pending_requests (ws s2) = ∅
  ∧ tasks s2 = tasks s
  ∧ (∀ t k fut,
       tasks s !! t = Some (Waiting k fut) → futures s !! fut = Some Pending →
       (∀ f d, recv = Ok f → is_reply f d → py_int_key (reply_id d) ≠ Ok (Some k)) →
       futures s2 !! fut = Some (FException closed_error)
       ∧ ∃ s3, step s2 (EWake t FutureDone) = Some s3
               ∧ tasks s3 !! t = Some (Raised closed_error))
  ∧ (∀ t k fut f d,
       tasks s !! t = Some (Waiting k fut) → futures s !! fut = Some Pending →
       recv = Ok f → is_reply f d → py_int_key (reply_id d) = Ok (Some k) →
       futures s2 !! fut = Some (FResult (JObj d)))
  ∧ (∀ recv', disconnect_call s2 recv' = s2)
  ∧ (∀ s0 recv', websocket (ws s0) = None →
       disconnect_call s0 recv' = with_ws (set_running false) s0)
  ∧ (∀ recv', disconnect_call initial recv' = initial).
Proof.
  intros Hreach Hh Hw s2.
  pose proof (reachable_consistent _ Hreach) as Hs.
  pose proof (reachable_exclusive _ Hreach) as Hx.
  set (s1 := with_ws (set_websocket (Some Closed)) (with_ws (set_running false) s)).
  assert (s2 = _message_handler s1 recv) as Hs2
    by (by apply disconnect_call_connected).
  destruct (last_turn s1 recv eq_refl) as (s' & Hlast & Hproc).
  rewrite Hlast in Hs2.
  assert (running (ws s') = false ∧ websocket (ws s') = Some Closed
          ∧ tasks s' = tasks s) as (Hr' & Hw' & Ht').
  { destruct recv as [f|e]; [|by subst s'].
    destruct Hproc as [o Hp].
    destruct (process_message_effect s1 f) as (s'' & o' & Hp' & He).
    rewrite Hp in Hp'. simplify_eq. by destruct He. }
  split; [by rewrite Hs2|]. split; [by rewrite Hs2|]. split; [by rewrite Hs2|].
  split; [by rewrite Hs2|]. split; [by rewrite Hs2|].
  split; [|split; [|split; [|split; [|done]]]].
  - intros t k fut Ht Hf Hnot.
    assert (pending_requests (ws s) !! k = Some fut) as Hk
      by (by eapply waiting_registered).
    assert (pending_requests (ws s') !! k = Some fut ∧ futures s' !! fut = Some Pending)
      as [Hk' Hf'].
    { destruct recv as [f|e]; [|by subst s'].
      destruct Hproc as [o Hp].
      destruct (frame_reply_or_unchanged s1 f) as [[d Hd]|[o' Hp']];
        [|rewrite Hp in Hp'; by simplify_eq].
      destruct (process_reply_cases s1 f d Hd)
        as [[o' Hp']|(k' & fut' & Hid & Hk1 & [Hp'|[Hf1 Hp']])];
        rewrite Hp in Hp'; simplify_eq; [done|..].
      - assert (k' ≠ k) as Hne by (intros ->; by eapply Hnot).
        simpl. by rewrite lookup_delete_ne.
      - assert (k' ≠ k) as Hne by (intros ->; by eapply Hnot).
        simpl. rewrite lookup_delete_ne by done. split; [done|].
        rewrite list_lookup_insert_ne; [done|]. intros ->.
        apply Hne. by eapply (pending_injective _ Hx). }
    assert (futures s2 !! fut = Some (FException closed_error)) as Hfail.
    { rewrite Hs2. by eapply handler_finally_fails. }
    split; [done|]. eexists. split.
    + apply wake_exception with (k := k) (fut := fut) (e := closed_error); [|done].
      rewrite Hs2. simpl. by rewrite Ht'.
    + simpl. apply list_lookup_insert_eq. rewrite Hs2. simpl. rewrite Ht'.
      by eapply lookup_lt_Some.
  - intros t k fut f d Ht Hf -> Hd Hid.
    assert (pending_requests (ws s) !! k = Some fut) as Hk
      by (by eapply waiting_registered).
    destruct Hproc as [o Hp].
    rewrite (process_reply_resolves s1 f d k fut Hd Hid Hk Hf) in Hp. simplify_eq.
    rewrite Hs2. apply handler_finally_keeps; [|done]. simpl.
    apply list_lookup_insert_eq. by eapply lookup_lt_Some.
  - intros recv'. rewrite Hs2. clear Hs2 Hlast Hproc Ht'.
    destruct s' as [[w r c p] fs ds wi h ts]. simpl in *. subst w r.
    unfold disconnect_call, disconnect. simpl. done.
  - intros s0 recv' H0. unfold disconnect_call, disconnect. simpl. by rewrite H0.
Qed.

Lemma disconnect_fails_pending_witness :
  ∃ s s3,
    run initial one_call = Some s
    ∧ run s [EDisconnect; ERecv (Raise ConnectionClosed)]
      = Some (disconnect_call s (Raise ConnectionClosed))
    ∧ pending_requests (ws (disconnect_call s (Raise ConnectionClosed))) = ∅
    ∧ futures (disconnect_call s (Raise ConnectionClosed)) !! 0%nat
      = Some (FException closed_error)
    ∧ step (disconnect_call s (Raise ConnectionClosed)) (EWake 0%nat FutureDone) = Some s3
    ∧ tasks s3 !! 0%nat = Some (Raised closed_error).
Proof.
  destruct (run initial one_call) as [s|] eqn:E; [|by vm_compute in E].
  assert (handler s = true) as Hh by (vm_compute in E; by simplify_eq).
  assert (is_Some (websocket (ws s))) as Hw by (vm_compute in E; by simplify_eq).
  destruct (disconnect_fails_pending s (Raise ConnectionClosed))
    as (_ & _ & _ & Hp & _ & Hfail & _); [by exists one_call|done|done|].
  destruct (Hfail 0%nat 1 0%nat) as (Hf & s3 & H3 & Ht).
  - vm_compute in E. by simplify_eq.
  - vm_compute in E. by simplify_eq.
  - done.
  - exists s, s3. split; [done|]. split; [by apply disconnect_call_run|]. done.
Defined.

(** C2 as stated fails: what a waiting caller gets after [disconnect] is a
    plain [Exception], not a connection-closed exception type. *)
Lemma disconnect_raises_plain_Exception :
  ∃ s3,
    run initial (one_call ++ [EDisconnect; ERecv (Raise ConnectionClosed);
                              EWake 0%nat FutureDone]) = Some s3
    ∧ tasks s3 !! 0%nat = Some (Raised (PyException [Lit "Connection closed"]))
    ∧ tasks s3 !! 0%nat ≠ Some (Raised ConnectionClosed).
Proof.
  eexists. split; [by vm_compute|]. split; [done|]. by vm_compute.
Qed.

(** ** Scenarios *)

(** The reply that was still on its way when [disconnect] was called
    reaches its caller: the loop processes it before it leaves. *)
Example scenario_reply_during_disconnect :
  ∃ s s3,
    run initial one_call = Some s
    ∧ step (disconnect_call s (Ok (reply 1 (answer "late")))) (EWake 0%nat FutureDone)
      = Some s3
    ∧ handler s3 = false
    ∧ pending_requests (ws s3) = ∅
    ∧ tasks s3 !! 0%nat = Some (Returned (JObj (<["id" := JInt 1]> (answer "late")))).
Proof.
  eexists _, _. split; [by vm_compute|]. split; [by vm_compute|]. by vm_compute.
Qed.

Definition all_mids_world : world :=
  mkWorld (mkClient (Some Open) true 6 ∅) []
    [info_request (JObj {["type" := JStr "allMids"]})] [] true [].

Definition all_mids_reply : obj :=
  {["response" := JObj {["type" := JStr "allMids";
                         "payload" := JObj {["ETH" := JStr "3000"]}]}]}.

(** The seventh request of a client asks for [allMids]; the reply for id 7
    comes; the call returns the reply's data, and [send_ws_info_request]
    hands out [{"ETH": "3000"}]. *)
Example scenario_all_mids :
  ∃ s' d,
    run all_mids_world [ECall 0%nat; ERecv (Ok (reply 7 all_mids_reply));
                        EWake 0%nat FutureDone] = Some s'
    ∧ tasks s' !! 0%nat = Some (Returned d)
    ∧ send_ws_info_request_return (Ok d) = Ok (JObj {["ETH" := JStr "3000"]})
    ∧ pending_requests (ws s') = ∅.
Proof. eexists _, _. split; [by vm_compute|]. by vm_compute. Qed.

(** One dict passed to two calls: the first call writes id 1 into it, the
    second finds an id and sends the dict as it is, so both frames carry
    id 1 while the second future waits under id 2. *)
Example scenario_reused_dict :
  ∃ s',
    run initial (one_call ++ [ECall 0%nat]) = Some s'
    ∧ wire s' = [JObj (<["id" := JInt 1]> (info_request JNull));
                 JObj (<["id" := JInt 1]> (info_request JNull))]
    ∧ tasks s' = [Waiting 1 0; Waiting 2 1].
Proof. eexists. split; [by vm_compute|]. by vm_compute. Qed.

(** A reply whose id is the JSON value [true] is looked up with
    [True == 1] and resolves request 1. *)
Example scenario_true_is_one :
  ∃ s' d,
    run initial (one_call ++ [ERecv (Ok (Parsed (JObj
           {["channel" := JStr "post"; "data" := JObj {["id" := JBool true]}]})))])
      = Some s'
    ∧ futures s' !! 0%nat = Some (FResult d)
    ∧ pending_requests (ws s') = ∅.
Proof. eexists _, _. split; [by vm_compute|]. by vm_compute. Qed.

(** A reply for a cancelled call that does arrive is dropped in silence:
    the entry left behind is popped and the cancelled future is not
    touched. *)
Example scenario_reply_after_cancellation :
  ∃ s s',
    run initial (one_call ++ [EWake 0%nat Cancellation]) = Some s
    ∧ _process_message s (reply 1 ∅) = Ok (s', AlreadyDone 1)
    ∧ pending_requests (ws s') = ∅
    ∧ futures s' !! 0%nat = Some FCancelled.
Proof. eexists _, _. split; [by vm_compute|]. by vm_compute. Qed.


(** * Further properties of the session layer *)

(** ** Any frame *)

Lemma frame_effect_frame s s' o :
  frame_effect s s' o →
  request_counter (ws s') = request_counter (ws s)
  ∧ websocket (ws s') = websocket (ws s)
  ∧ running (ws s') = running (ws s)
  ∧ dicts s' = dicts s ∧ wire s' = wire s ∧ tasks s' = tasks s
  ∧ handler s' = handler s
  ∧ length (futures s') = length (futures s)
  ∧ pending_requests (ws s') ⊆ pending_requests (ws s).
Proof.
  intros [o'|k fut Hp Hd|k fut v Hp Hf]; simpl; rewrite ?length_insert;
    repeat split; try done; apply delete_subseteq.
Qed.

(** X1.  Whatever the frame, [_process_message] returns normally.  It
    changes nothing but the pending table, which can only lose entries,
    and the states of existing futures: the counter, the connection, the
    callers' dicts, the frames sent, the callers and the receive loop are
    as before. *)
Theorem process_message_never_raises s f :
  ∃ s' o,
    _process_message s f = Ok (s', o)
    ∧ request_counter (ws s') = request_counter (ws s)
    ∧ websocket (ws s') = websocket (ws s)
    ∧ running (ws s') = running (ws s)
    ∧ dicts s' = dicts s ∧ wire s' = wire s ∧ tasks s' = tasks s
    ∧ handler s' = handler s
    ∧ length (futures s') = length (futures s)
    ∧ pending_requests (ws s') ⊆ pending_requests (ws s).
Proof.
  destruct (process_message_effect s f) as (s' & o & H & Hfe).
  exists s', o. split; [done|]. by apply (frame_effect_frame s s' o).
Qed.

(** X2.  Only frames of channel ["post"] can change anything.  A decoded
    frame that is not a dict with ["channel"] equal to ["post"] leaves
    the world as it is, also when its handling fails inside (a list where
    a dict is expected, a missing key): the failure is logged and
    swallowed. *)
Theorem only_post_frames_change_state s data :
  (∀ m, data = JObj m → m !! "channel" ≠ Some (JStr "post")) →
  ∃ o, _process_message s (Parsed data) = Ok (s, o).
Proof. apply non_post_unchanged. Qed.

Lemma only_post_frames_change_state_witness :
  let s := connected_with ∅ in
  ∃ o, _process_message s
         (Parsed (JObj {["channel" := JStr "orderUpdates"; "data" := JInt 5]}))
       = Ok (s, o).
Proof.
  intros s. apply only_post_frames_change_state.
  intros m [= <-]. by vm_compute.
Defined.

(** ** Futures *)

Lemma frame_effect_done s s' o fut f :
  frame_effect s s' o → futures s !! fut = Some f → f ≠ Pending →
  futures s' !! fut = Some f.
Proof.
  intros [o'|k fut' Hp Hd|k fut' v Hp Hf] Hl Hne; simpl; try done.
  rewrite list_lookup_insert_ne; [done|]. intros ->. by simplify_eq.
Qed.

Lemma step_done s ev s' fut f :
  step s ev = Some s' → futures s !! fut = Some f → f ≠ Pending →
  futures s' !! fut = Some f.
Proof.
  destruct ev as [failure| | |d|request|t w|recv|channel params|channel params];
    simpl; intros H Hl Hne.
  - destruct (handler s); [done|]. simplify_eq. by destruct failure.
  - simplify_eq. by destruct (disconnect_shape s) as [-> | ->].
  - by destruct (websocket (ws s)) as [[]|]; simplify_eq.
  - by simplify_eq.
  - destruct (send_request_start s request) as [[s1 t]|] eqn:E; simplify_eq/=.
    destruct (start_cases _ _ _ _ E) as (d & Hd & [(Hc & -> & ->)|[(Hw & Hr & _)|(Hw & Hr & _)]]).
    + done.
    + rewrite (start_open _ _ _ Hd Hw Hr) in E. simplify_eq/=.
      rewrite lookup_app_l; [done|]. by eapply lookup_lt_Some.
    + rewrite (start_closed _ _ _ Hd Hw Hr) in E. simplify_eq/=.
      rewrite lookup_app_l; [done|]. by eapply lookup_lt_Some.
  - destruct (tasks s !! t) as [[k fut0| |]|] eqn:Ht; simplify_eq/=.
    destruct (send_request_resume s k fut0 w) as [[s1 t']|] eqn:E; simplify_eq/=.
    apply resume_shape in E as (popped & cancelled & -> & Hc & _).
    assert (fut = fut0 → cancelled = false) as Hsame.
    { intros ->. destruct cancelled; [|done]. rewrite Hc in Hl by done. by simplify_eq. }
    destruct popped, cancelled; simpl; try done;
      (rewrite list_lookup_insert_ne; [done|]; intros <-; by specialize (Hsame eq_refl)).
  - destruct (handler s); simplify_eq. unfold _message_handler.
    assert (∀ s0, futures s0 !! fut = Some f → futures (while_test s0) !! fut = Some f) as Hw.
    { intros s0 H0.
      destruct (while_test_cases s0) as [-> | ->]; [done|by apply handler_finally_keeps]. }
    assert (∀ e, futures (handler_except s e) !! fut = Some f) as He.
    { intros e. unfold handler_except.
      destruct e; cbn [is_Exception]; first [by apply Hw | by apply handler_finally_keeps]. }
    destruct recv as [message|e]; [|done].
    destruct (process_message_effect s message) as (s1 & o & -> & Hfe).
    apply Hw. by eapply frame_effect_done.
  - simplify_eq. unfold subscribe_to_channel.
    by destruct (send_control_shape s "subscribe" channel params) as [-> | ->].
  - simplify_eq. unfold unsubscribe_from_channel.
    by destruct (send_control_shape s "unsubscribe" channel params) as [-> | ->].
Qed.

(** X3.  A future is resolved at most once: once it holds a result, an
    exception or a cancellation, nothing the program does later changes
    it, whatever frames arrive, whoever times out or disconnects. *)
Theorem future_resolved_once evs s s' fut f :
  run s evs = Some s' → futures s !! fut = Some f → f ≠ Pending →
  futures s' !! fut = Some f.
Proof.
  revert s. induction evs as [|ev evs IH]; simpl; intros s H Hl Hne; [by simplify_eq|].
  destruct (step s ev) as [s1|] eqn:E; simplify_eq/=.
  eauto using step_done.
Qed.

Lemma future_resolved_once_witness :
  ∃ s s',
    run initial (one_call ++ [ERecv (Ok (reply 1 (answer "a")))]) = Some s
    ∧ run s [ERecv (Ok (reply 1 (answer "b"))); EDisconnect;
             ERecv (Raise ConnectionClosed)] = Some s'
    ∧ futures s' !! 0%nat = Some (FResult (JObj (<["id" := JInt 1]> (answer "a")))).
Proof.
  destruct (run initial (one_call ++ [ERecv (Ok (reply 1 (answer "a")))]))
    as [s|] eqn:E; [|by vm_compute in E].
  destruct (run s [ERecv (Ok (reply 1 (answer "b"))); EDisconnect;
                   ERecv (Raise ConnectionClosed)]) as [s'|] eqn:E';
    [|vm_compute in E; simplify_eq; by vm_compute in E'].
  exists s, s'. split; [done|]. split; [done|].
  apply (future_resolved_once _ s s' 0%nat _ E'); [|done].
  vm_compute in E. by simplify_eq.
Defined.

(** X4.  Every exit of [send_request] but cancellation leaves the
    call's id out of the table, in every state the program can reach: a
    call that returns or raises after its future was completed finds the
    entry popped by the receive loop or pops it itself, and a call that
    times out pops it. *)
Theorem exit_but_cancellation_removes_entry s t k fut w s' :
  reachable s → tasks s !! t = Some (Waiting k fut) →
  step s (EWake t w) = Some s' → w ≠ Cancellation →
  pending_requests (ws s') !! k = None.
Proof. apply exit_removes_entry. Qed.

Lemma exit_but_cancellation_removes_entry_witness :
  ∃ s s',
    run initial (one_call ++ [ERecv (Ok (reply 1 (answer "a")))]) = Some s
    ∧ step s (EWake 0%nat FutureDone) = Some s'
    ∧ pending_requests (ws s') !! 1 = None.
Proof.
  destruct (run initial (one_call ++ [ERecv (Ok (reply 1 (answer "a")))]))
    as [s|] eqn:E; [|by vm_compute in E].
  destruct (step s (EWake 0%nat FutureDone)) as [s'|] eqn:E';
    [|vm_compute in E; simplify_eq; by vm_compute in E'].
  exists s, s'. split; [done|]. split; [done|].
  apply (exit_but_cancellation_removes_entry s 0%nat 1 0%nat FutureDone s'); [by eexists| |done|done].
  vm_compute in E. by simplify_eq.
Defined.

(** ** The receive loop *)

(** X5.  The peer closes the connection: [recv] raises
    [ConnectionClosed], the loop breaks and its [finally] block fails
    every call that waits on an unresolved future with
    [Exception("Connection closed")] and empties the table, as after
    [disconnect].  [running] is not cleared on this path, so the client
    still passes the connection check of [send_request]. *)
Theorem remote_close_fails_pending s :
  consistent s → handler s = true → connected (ws s) = true →
  ∃ s2,
    step s (ERecv (Raise ConnectionClosed)) = Some s2
    ∧ handler s2 = false
    ∧ pending_requests (ws s2) = ∅
    ∧ connected (ws s2) = true
    ∧ ∀ t k fut,
        tasks s !! t = Some (Waiting k fut) → futures s !! fut = Some Pending →
        futures s2 !! fut = Some (FException closed_error)
        ∧ ∃ s3, step s2 (EWake t FutureDone) = Some s3
                ∧ tasks s3 !! t = Some (Raised closed_error).
Proof.
  intros Hs Hh Hc. exists (handler_finally s).
  split.
  { simpl. by rewrite Hh. }
  do 3 (split; [done|]).
  intros t k fut Ht Hf.
  assert (futures (handler_finally s) !! fut = Some (FException closed_error)) as Hfail.
  { apply handler_finally_fails with (k := k); [|done]. by eapply waiting_registered. }
  split; [done|]. eexists. split.
  - by apply wake_exception with (k := k) (fut := fut) (e := closed_error).
  - simpl. apply list_lookup_insert_eq. by eapply lookup_lt_Some.
Qed.

Lemma remote_close_fails_pending_witness :
  ∃ s s2,
    run initial one_call = Some s
    ∧ step s (ERecv (Raise ConnectionClosed)) = Some s2
    ∧ pending_requests (ws s2) = ∅
    ∧ futures s2 !! 0%nat = Some (FException closed_error).
Proof.
  destruct (run initial one_call) as [s|] eqn:E; [|by vm_compute in E].
  destruct (remote_close_fails_pending s) as (s2 & H1 & _ & H2 & _ & H3).
  - apply reachable_consistent. by exists one_call.
  - vm_compute in E. by simplify_eq.
  - vm_compute in E. by simplify_eq.
  - exists s, s2. split; [done|]. split; [done|]. split; [done|].
    apply (H3 0%nat 1 0%nat); vm_compute in E; by simplify_eq.
Defined.

(** X6.  When [recv] raises an [Exception] other than
    [ConnectionClosed], the error is logged and the loop goes on:
    nothing changes, no caller is failed, the loop is still alive. *)
Theorem recv_error_keeps_loop s e :
  handler s = true → connected (ws s) = true →
  is_Exception e = true → e ≠ ConnectionClosed →
  step s (ERecv (Raise e)) = Some s.
Proof.
  intros Hh Hc He Hne. simpl. rewrite Hh. f_equal.
  unfold _message_handler, handler_except.
  destruct e; simpl in *; try done; by apply while_test_connected.
Qed.

Lemma recv_error_keeps_loop_witness :
  step (connected_with ∅) (ERecv (Raise TypeError)) = Some (connected_with ∅).
Proof. by apply recv_error_keeps_loop. Defined.

(** ** Calls that cannot be sent *)

(** X7.  After [disconnect], [send_request] refuses every call with
    [APIError("WebSocket not connected")] before it does anything: no id
    is consumed, nothing is registered or sent, and the caller's dict is
    not touched.  The same holds for a client that was never
    connected. *)
Theorem send_request_refused_after_disconnect s request d :
  dicts s !! request = Some d →
  send_request_start (disconnect s) request
    = Some (disconnect s, Raised (APIError [Lit "WebSocket not connected"]))
  ∧ (websocket (ws s) = None →
     send_request_start s request
       = Some (s, Raised (APIError [Lit "WebSocket not connected"]))).
Proof.
  intros Hd. split.
  - apply start_not_connected with (d := d).
    + by destruct (disconnect_shape s) as [-> | ->].
    + unfold connected. destruct (disconnect_shape s) as [-> | ->]; simpl;
        rewrite ?andb_false_r; done.
  - intros Hw. apply start_not_connected with (d := d); [done|].
    unfold connected. by rewrite Hw.
Qed.

Lemma send_request_refused_after_disconnect_witness :
  let s := disconnect (connected_with ∅) in
  send_request_start s 0 = Some (s, Raised (APIError [Lit "WebSocket not connected"])).
Proof.
  intros s. by apply (send_request_refused_after_disconnect (connected_with ∅) 0 ∅).
Defined.

(** X8.  A call on a connection that has been closed while [running] is
    still set fails with [ConnectionClosed] only after the id has been
    taken and written into the caller's dict: the counter has advanced,
    the dict keeps the id, nothing was sent and no entry is left. *)
Theorem failed_send_consumes_id s request d :
  dicts s !! request = Some d → d !! "id" = None →
  websocket (ws s) = Some Closed → running (ws s) = true →
  ∃ s',
    send_request_start s request = Some (s', Raised ConnectionClosed)
    ∧ request_counter (ws s') = request_counter (ws s) + 1
    ∧ dicts s' !! request = Some (<["id" := JInt (request_counter (ws s) + 1)]> d)
    ∧ wire s' = wire s
    ∧ pending_requests (ws s') !! (request_counter (ws s) + 1) = None.
Proof.
  intros Hd Hid Hw Hr. eexists. split; [by apply start_closed|]. simpl.
  split; [done|]. split; [|split; [done|apply lookup_delete_eq]].
  unfold add_id. rewrite Hid, bool_decide_eq_false_2 by (by intros [? ?]).
  apply list_lookup_insert_eq. by eapply lookup_lt_Some.
Qed.

Lemma failed_send_consumes_id_witness :
  let s := mkWorld (mkClient (Some Closed) true 4 ∅) [] [∅] [] true [] in
  ∃ s',
    send_request_start s 0 = Some (s', Raised ConnectionClosed)
    ∧ request_counter (ws s') = 5
    ∧ dicts s' !! 0%nat = Some (<["id" := JInt 5]> ∅).
Proof.
  intros s.
  destruct (failed_send_consumes_id s 0 ∅) as (s' & H1 & H2 & H3 & _); try done.
  by exists s'.
Defined.

(** ** One dict, two calls *)

Lemma call_step s request s' t :
  send_request_start s request = Some (s', t) →
  step s (ECall request) = Some (with_tasks (λ ts, ts ++ [t]) s').
Proof. intros H. simpl. by rewrite H. Qed.

Lemma run_two s e1 e2 s1 s2 :
  step s e1 = Some s1 → step s1 e2 = Some s2 → run s [e1; e2] = Some s2.
Proof.
  intros H1 H2.
  change (step s e1 ≫= (λ s', step s' e2 ≫= (λ s'', Some s'')) = Some s2).
  rewrite H1. change (step s1 e2 ≫= (λ s'', Some s'') = Some s2). by rewrite H2.
Qed.

(** X9.  A request dict without an id that is passed to [send_request]
    twice: the first call writes its id into the dict, the second call
    finds an id and sends the dict as it is.  Both frames on the socket
    carry the first id, while the second future is registered under the
    next id.  A reply for the first id resolves the first call and leaves
    the second one waiting. *)
Theorem reused_dict_sends_first_id s request d :
  dicts s !! request = Some d → d !! "id" = None →
  websocket (ws s) = Some Open → running (ws s) = true →
  let c := request_counter (ws s) in
  let F := length (futures s) in
  let d1 := <["id" := JInt (c + 1)]> d in
  ∃ s2,
    run s [ECall request; ECall request] = Some s2
    ∧ wire s2 = wire s ++ [JObj d1; JObj d1]
    ∧ tasks s2 = tasks s ++ [Waiting (c + 1) F; Waiting (c + 2) (F + 1)%nat]
    ∧ ∀ f dd, is_reply f dd → reply_id dd = JInt (c + 1) →
        ∃ s3, _process_message s2 f = Ok (s3, Resolved (c + 1))
          ∧ futures s3 !! F = Some (FResult (JObj dd))
          ∧ futures s3 !! (F + 1)%nat = Some Pending
          ∧ pending_requests (ws s3) !! (c + 2) = Some (F + 1)%nat.
Proof.
  intros Hd Hid Hw Hr c F d1.
  assert (request < length (dicts s))%nat as Hlt by (by eapply lookup_lt_Some).
  assert (add_id (c + 1) d = d1) as Hadd1.
  { unfold add_id. by rewrite Hid, bool_decide_eq_false_2 by (by intros [? ?]). }
  assert (add_id (c + 1 + 1) d1 = d1) as Hadd2.
  { unfold add_id, d1. rewrite lookup_insert_eq. by rewrite bool_decide_eq_true_2. }
  pose proof (start_open _ _ _ Hd Hw Hr) as H1. simpl in H1. fold c F in H1.
  rewrite Hadd1 in H1.
  set (s1 := with_tasks (λ ts, ts ++ [Waiting (c + 1) F])
               (mkWorld (mkClient (Some Open) true (c + 1)
                           (<[c + 1 := F]> (pending_requests (ws s))))
                  (futures s ++ [Pending]) (<[request := d1]> (dicts s))
                  (wire s ++ [JObj d1]) (handler s) (tasks s))).
  assert (dicts s1 !! request = Some d1) as Hd1 by (by apply list_lookup_insert_eq).
  pose proof (start_open s1 request d1 Hd1 eq_refl eq_refl) as H2. simpl in H2.
  rewrite Hadd2, length_app in H2. simpl in H2.
  pose proof (call_step _ _ _ _ H1) as Hstep1. fold s1 in Hstep1.
  pose proof (call_step _ _ _ _ H2) as Hstep2.
  eexists. split.
  { by apply run_two with (s1 := s1). }
  simpl. rewrite <- !app_assoc. simpl.
  split; [done|]. split; [by replace (c + 1 + 1) with (c + 2) by lia|].
  intros f dd Hf Hdd.
  assert ((futures s ++ [Pending; Pending]) !! F = Some Pending) as HF.
  { by rewrite lookup_app_r, Nat.sub_diag. }
  assert ((futures s ++ [Pending; Pending]) !! (F + 1)%nat = Some Pending) as HF1.
  { rewrite lookup_app_r by (unfold F; lia).
    by replace (F + 1 - length (futures s))%nat with 1%nat by (unfold F; lia). }
  eexists. split.
  { eapply (process_reply_resolves _ f dd (c + 1) F); [done|by rewrite Hdd|..]; simpl.
    - rewrite lookup_insert_ne by lia. apply lookup_insert_eq.
    - exact HF. }
  simpl.
  split. { apply list_lookup_insert_eq. by eapply lookup_lt_Some. }
  split. { by rewrite list_lookup_insert_ne by lia. }
  rewrite lookup_delete_ne by lia.
  replace (c + 2) with (c + 1 + 1) by lia. by rewrite lookup_insert_eq.
Qed.

Lemma reused_dict_sends_first_id_witness :
  let d := info_request JNull in
  ∃ s2,
    run (connected_with d) [ECall 0%nat; ECall 0%nat] = Some s2
    ∧ wire s2 = [JObj (<["id" := JInt 1]> d); JObj (<["id" := JInt 1]> d)]
    ∧ tasks s2 = [Waiting 1 0; Waiting 2 1].
Proof.
  intros d.
  destruct (reused_dict_sends_first_id (connected_with d) 0 d)
    as (s2 & H1 & H2 & H3 & _); [done|by vm_compute|done|done|].
  by exists s2.
Defined.

(** ** The counter *)



(** ** Calls do not disturb each other *)

(** X11.  However a call leaves [send_request] (reply, failure, timeout,
    cancellation), every other call in flight is left as it was: still
    waiting, its future and its table entry untouched. *)
Theorem exit_leaves_other_calls s t k fut t2 k2 f2 w s' :
  reachable s →
  tasks s !! t = Some (Waiting k fut) → tasks s !! t2 = Some (Waiting k2 f2) →
  t2 ≠ t →
  step s (EWake t w) = Some s' →
  tasks s' !! t2 = Some (Waiting k2 f2)
  ∧ futures s' !! f2 = futures s !! f2
  ∧ pending_requests (ws s') !! k2 = pending_requests (ws s) !! k2.
Proof.
  intros Hr Ht Ht2 Hne H.
  pose proof (reachable_consistent _ Hr) as Hs.
  pose proof (reachable_exclusive _ Hr) as Hx.
  simpl in H. rewrite Ht in H.
  destruct (send_request_resume s k fut w) as [[s1 t']|] eqn:E; simplify_eq/=.
  apply resume_shape in E as (popped & cancelled & -> & _ & _).
  assert (k2 ≠ k) as Hk.
  { intros ->. apply Hne. by eapply (waiting_distinct _ Hs). }
  assert (f2 ≠ fut) as Hf.
  { intros ->. apply Hne. by eapply (waiting_futures_distinct _ Hx). }
  split.
  { rewrite list_lookup_insert_ne by done. by destruct popped, cancelled. }
  destruct popped, cancelled; simpl;
    rewrite ?list_lookup_insert_ne, ?lookup_delete_ne by done; done.
Qed.

Lemma exit_leaves_other_calls_witness :
  ∃ s s',
    run initial (two_dicts ++ [ECall 0%nat; ECall 1%nat]) = Some s
    ∧ step s (EWake 0%nat TimedOut) = Some s'
    ∧ tasks s' !! 1%nat = Some (Waiting 2 1)
    ∧ pending_requests (ws s') !! 2 = Some 1%nat.
Proof.
  destruct (run initial (two_dicts ++ [ECall 0%nat; ECall 1%nat]))
    as [s|] eqn:E; [|by vm_compute in E].
  destruct (step s (EWake 0%nat TimedOut)) as [s'|] eqn:E';
    [|vm_compute in E; simplify_eq; by vm_compute in E'].
  exists s, s'. split; [done|]. split; [done|].
  destruct (exit_leaves_other_calls s 0%nat 1 0%nat 1%nat 2 1%nat TimedOut s')
    as (H1 & _ & H2); [by eexists| | |done|done|].
  - vm_compute in E. by simplify_eq.
  - vm_compute in E. by simplify_eq.
  - split; [done|]. rewrite H2. vm_compute in E. by simplify_eq.
Defined.

(** X12.  A reply frame touches the call whose id it carries and no
    other: a call in flight under a different id keeps its future and
    its table entry, and no caller is woken or failed by the frame
    itself. *)
Theorem reply_leaves_other_calls s t2 k2 f2 f d :
  reachable s →
  tasks s !! t2 = Some (Waiting k2 f2) →
  is_reply f d → py_int_key (reply_id d) ≠ Ok (Some k2) →
  ∃ s' o,
    _process_message s f = Ok (s', o)
    ∧ tasks s' = tasks s
    ∧ futures s' !! f2 = futures s !! f2
    ∧ pending_requests (ws s') !! k2 = pending_requests (ws s) !! k2.
Proof.
  intros Hr Ht2 Hf Hk2.
  pose proof (reachable_consistent _ Hr) as Hs.
  pose proof (reachable_exclusive _ Hr) as Hx.
  destruct (process_reply_cases s f d Hf) as [[o Ho]|(k & fut & Hk & Hp & Hcase)];
    [by exists s, o|].
  assert (k ≠ k2) as Hne by (intros ->; by rewrite Hk in Hk2).
  destruct Hcase as [Hd | [Hpend Hres]].
  - exists (pop k s), (AlreadyDone k). split; [done|]. simpl.
    by rewrite lookup_delete_ne by done.
  - eexists _, _. split; [done|]. simpl.
    rewrite lookup_delete_ne by done. split; [done|]. split; [|done].
    apply list_lookup_insert_ne. intros ->.
    apply Hne. eapply (pending_injective _ Hx); [done|].
    by eapply (waiting_registered _ Hs).
Qed.

Lemma reply_leaves_other_calls_witness :
  ∃ s s' o,
    run initial (two_dicts ++ [ECall 0%nat; ECall 1%nat]) = Some s
    ∧ _process_message s (reply 1 ∅) = Ok (s', o)
    ∧ futures s' !! 1%nat = Some Pending.
Proof.
  destruct (run initial (two_dicts ++ [ECall 0%nat; ECall 1%nat]))
    as [s|] eqn:E; [|by vm_compute in E].
  destruct (reply_leaves_other_calls s 1%nat 2 1%nat (reply 1 ∅) (<["id" := JInt 1]> ∅))
    as (s' & o & H1 & _ & H2 & _).
  - by eexists.
  - vm_compute in E. by simplify_eq.
  - apply reply_is_reply.
  - rewrite reply_id_insert. simpl. intros [=].
  - exists s, s', o. split; [done|]. split; [done|]. rewrite H2.
    vm_compute in E. by simplify_eq.
Defined.

(** ** The books *)

(** X13.  In every state the program can reach: the ids in the table and
    the ids of the calls in flight lie between 1 and the counter; no two
    calls in flight share an id or a future; a call in flight whose
    future is unresolved has its own future in the table under its own
    id; and an entry under the id of a call in flight holds that call's
    unresolved future. *)
Theorem reachable_bookkeeping s :
  reachable s →
  (∀ k fut, pending_requests (ws s) !! k = Some fut →
     1 ≤ k ≤ request_counter (ws s) ∧ (fut < length (futures s))%nat)
  ∧ (∀ t k fut, tasks s !! t = Some (Waiting k fut) →
       1 ≤ k ≤ request_counter (ws s) ∧ (fut < length (futures s))%nat)
  ∧ (∀ t1 t2 k1 k2 f1 f2,
       tasks s !! t1 = Some (Waiting k1 f1) → tasks s !! t2 = Some (Waiting k2 f2) →
       k1 = k2 ∨ f1 = f2 → t1 = t2)
  ∧ (∀ t k fut, tasks s !! t = Some (Waiting k fut) →
       (futures s !! fut = Some Pending ↔ pending_requests (ws s) !! k = Some fut)
       ∧ ∀ fut', pending_requests (ws s) !! k = Some fut' → fut' = fut).
Proof.
  intros Hr.
  pose proof (reachable_consistent _ Hr) as [H0 H1 H2 H3 H4].
  pose proof (reachable_exclusive _ Hr) as [H5 H6 H7].
  split; [done|]. split; [done|]. split.
  { intros t1 t2 k1 k2 f1 f2 Ht1 Ht2 [-> | ->]; eauto. }
  intros t k fut Ht. split.
  - split; [by eauto|]. intros Hp. by destruct (H7 _ _ _ _ Ht Hp).
  - intros fut' Hp. by destruct (H7 _ _ _ _ Ht Hp).
Qed.

Lemma reachable_bookkeeping_witness :
  ∃ s, run initial one_call = Some s
    ∧ ∀ k fut, pending_requests (ws s) !! k = Some fut →
        1 ≤ k ≤ request_counter (ws s) ∧ (fut < length (futures s))%nat.
Proof.
  destruct (run initial one_call) as [s|] eqn:E; [|by vm_compute in E].
  exists s. split; [done|].
  by destruct (reachable_bookkeeping s) as [H _]; [by exists one_call|].
Defined.

(** * [HyperLiquidClient] *)

(** ** The metadata caches of [get_meta] *)

Lemma cache_asset_plain index asset c :
  plain_asset asset = true →
  cache_asset index asset c
  = (match asset_name asset with
     | Some n => mkCache (asset_metadata c) (<[KStr n := asset_sz asset]> (sz_decimals c))
                         (<[KStr n := index]> (asset_indices c))
     | None => c
     end, Ok ()).
Proof.
  destruct asset as [| | | | | |o]; simpl; try done.
  unfold cache_asset. simpl.
  destruct (o !! "name") as [[| | | | n | |]|]; simpl; try done.
  case_bool_decide; simpl; done.
Qed.

Lemma cache_assets_plain assets : ∀ index c,
  Forall (λ a, plain_asset a = true) assets →
  ∃ c',
    cache_assets index assets c = (c', Ok ())
    ∧ asset_metadata c' = asset_metadata c
    ∧ (∀ i asset n, assets !! i = Some asset → asset_name asset = Some n →
         (∀ j a', (i < j)%nat → assets !! j = Some a' → asset_name a' ≠ Some n) →
         asset_indices c' !! KStr n = Some (index + Z.of_nat i)
         ∧ sz_decimals c' !! KStr n = Some (asset_sz asset))
    ∧ (∀ k, (∀ a n, a ∈ assets → asset_name a = Some n → k ≠ KStr n) →
         asset_indices c' !! k = asset_indices c !! k
         ∧ sz_decimals c' !! k = sz_decimals c !! k).
Proof.
  induction assets as [|a rest IH]; intros index c Hplain.
  { exists c. simpl. repeat split; try done. }
  apply Forall_cons in Hplain as [Ha Hrest].
  simpl. rewrite (cache_asset_plain _ _ _ Ha).
  set (c1 := match asset_name a with Some n => _ | None => c end).
  destruct (IH (index + 1) c1 Hrest) as (c' & Hrun & Hmeta & Hlast & Hkeep).
  exists c'. split; [done|]. split.
  { rewrite Hmeta. unfold c1. by destruct (asset_name a). }
  split.
  - intros [|i] asset n Hi Hn Hlater; simpl in Hi.
    + simplify_eq. destruct (Hkeep (KStr n)) as [-> ->].
      { intros a' n' Hin Hn' [= ->].
        apply list_elem_of_lookup in Hin as [j Hj].
        by eapply (Hlater (S j)); [lia|..]. }
      unfold c1. rewrite Hn. simpl. rewrite !lookup_insert_eq.
      split; [f_equal; lia|done].
    + destruct (Hlast i asset n Hi Hn) as [-> ->].
      { intros j a' Hj. by apply (Hlater (S j)); lia. }
      split; [f_equal; lia|done].
  - intros k Hk. destruct (Hkeep k) as [-> ->].
    { intros a' n Hin. apply Hk. by right. }
    unfold c1. destruct (asset_name a) as [n|] eqn:Hn; [|done]. simpl.
    rewrite !lookup_insert_ne; [done|..]; intros <-; by eapply (Hk a n); [left|..].
Qed.

(** X14.  [get_meta] on a response whose ["universe"] is a list of assets
    as the venue lists them: every asset with a non-empty name is cached
    under its name with its position in the list as index and its
    ["szDecimals"] (0 if it gives none); when a name occurs more than
    once the last occurrence wins; and whatever the caches held under a
    name that is not in the list is still there. *)
Theorem get_meta_caches_universe m assets c :
  m !! "universe" = Some (JArr assets) →
  Forall (λ a, plain_asset a = true) assets →
  ∃ c',
    get_meta_cache (JObj m) c = (c', Ok (JObj m))
    ∧ asset_metadata c' = JObj m
    ∧ (∀ i asset n, assets !! i = Some asset → asset_name asset = Some n →
         (∀ j a', (i < j)%nat → assets !! j = Some a' → asset_name a' ≠ Some n) →
         asset_index c' n = Z.of_nat i
         ∧ sz_decimals c' !! KStr n = Some (asset_sz asset))
    ∧ (∀ k, (∀ a n, a ∈ assets → asset_name a = Some n → k ≠ KStr n) →
         asset_indices c' !! k = asset_indices c !! k
         ∧ sz_decimals c' !! k = sz_decimals c !! k).
Proof.
  intros Hu Hplain.
  destruct (cache_assets_plain assets 0 c Hplain) as (c' & Hrun & Hmeta & Hlast & Hkeep).
  exists (mkCache (JObj m) (sz_decimals c') (asset_indices c')).
  split.
  { unfold get_meta_cache. simpl.
    rewrite bool_decide_eq_true_2 by (by rewrite Hu). simpl.
    rewrite Hu. simpl. by rewrite Hrun. }
  split; [done|]. split; [|done].
  intros i asset n Hi Hn Hlater.
  destruct (Hlast i asset n Hi Hn Hlater) as [Hidx Hsz].
  split; [|done]. unfold asset_index. simpl. rewrite Hidx. simpl. lia.
Qed.

Definition eth_btc : list json :=
  [JObj {["name" := JStr "BTC"; "szDecimals" := JInt 5]};
   JObj {["name" := JStr "ETH"; "szDecimals" := JInt 4]}].

Lemma get_meta_caches_universe_witness :
  ∃ c',
    get_meta_cache (JObj {["universe" := JArr eth_btc]}) empty_cache
    = (c', Ok (JObj {["universe" := JArr eth_btc]}))
    ∧ asset_index c' "ETH" = 1
    ∧ sz_decimals c' !! KStr "ETH" = Some (JInt 4).
Proof.
  destruct (get_meta_caches_universe {["universe" := JArr eth_btc]} eth_btc empty_cache)
    as (c' & H1 & _ & H2 & _).
  - by vm_compute.
  - repeat constructor.
  - exists c'. split; [done|].
    change (asset_index c' "ETH" = Z.of_nat 1
            ∧ sz_decimals c' !! KStr "ETH"
              = Some (asset_sz (JObj {["name" := JStr "ETH"; "szDecimals" := JInt 4]}))).
    apply (H2 1%nat (JObj {["name" := JStr "ETH"; "szDecimals" := JInt 4]}) "ETH"%string).
    + done.
    + by vm_compute.
    + intros [|[|j]] a' Hj; try lia; by simpl.
Defined.

Lemma cache_assets_app l1 : ∀ l2 index c,
  cache_assets index (l1 ++ l2) c
  = match cache_assets index l1 c with
    | (c', Ok _) => cache_assets (index + Z.of_nat (length l1)) l2 c'
    | (c', Raise e) => (c', Raise e)
    end.
Proof.
  induction l1 as [|a l1 IH]; intros l2 index c; simpl.
  { by rewrite Z.add_0_r. }
  destruct (cache_asset index a c) as [c1 [[]|e]]; [|done].
  rewrite IH. destruct (cache_assets (index + 1) l1 c1) as [c2 [[]|e]]; [|done].
  f_equal. lia.
Qed.

(** X15.  [get_meta] is not atomic.  When the ["universe"] list holds
    something that is not a dict, the call raises (the [AttributeError]
    of [asset.get], which [get_meta] re-raises as an [APIError]), but
    the assets before it have been cached: the two caches are what a
    successful call on the list cut off before that element leaves,
    while [asset_metadata] keeps its old value. *)
Theorem get_meta_partial_on_failure m good bad rest c :
  m !! "universe" = Some (JArr (good ++ bad :: rest)) →
  Forall (λ a, plain_asset a = true) good →
  is_dict bad = false →
  let cut := JObj (<["universe" := JArr good]> m) in
  ∃ c1,
    get_meta_cache (JObj m) c = (c1, Raise AttributeError)
    ∧ asset_metadata c1 = asset_metadata c
    ∧ get_meta_cache cut c
      = (mkCache cut (sz_decimals c1) (asset_indices c1), Ok cut).
Proof.
  intros Hu Hplain Hbad cut.
  destruct (cache_assets_plain good 0 c Hplain) as (c1 & Hrun & Hmeta & _).
  exists c1. split; [|split; [done|]].
  - unfold get_meta_cache. simpl.
    rewrite bool_decide_eq_true_2 by (by rewrite Hu). simpl.
    rewrite Hu. simpl. rewrite cache_assets_app, Hrun. simpl.
    destruct bad; try done.
  - unfold get_meta_cache, cut. simpl.
    rewrite bool_decide_eq_true_2 by (by rewrite lookup_insert_eq). simpl.
    rewrite lookup_insert_eq. simpl. by rewrite Hrun.
Qed.

Lemma get_meta_partial_on_failure_witness :
  ∃ c1,
    get_meta_cache (JObj {["universe" := JArr (eth_btc ++ [JStr "SOL"])]}) empty_cache
    = (c1, Raise AttributeError)
    ∧ asset_metadata c1 = JObj ∅
    ∧ asset_index c1 "ETH" = 1.
Proof.
  destruct (get_meta_partial_on_failure
              {["universe" := JArr (eth_btc ++ [JStr "SOL"])]}
              eth_btc (JStr "SOL") [] empty_cache)
    as (c1 & H1 & H2 & H3).
  - by vm_compute.
  - repeat constructor.
  - done.
  - exists c1. split; [exact H1|]. split; [exact H2|].
    clear H2 H3. vm_compute in H1. by simplify_eq.
Defined.

(** ** What the caches never do *)

Lemma cache_asset_ok index asset c :
  0 ≤ index → cache_ok c → cache_ok (cache_asset index asset c).1.
Proof.
  intros Hi [Hk Hn]. unfold cache_asset.
  destruct (py_get asset "name" JNull) as [name|e]; [|done].
  destruct (py_truthy name); [|done].
  destruct (py_get asset "szDecimals" (JInt 0)) as [sz|e]; [|done].
  destruct (py_hash name) as [key|e]; [|done].
  split; simpl.
  - by rewrite !dom_insert_L, Hk.
  - intros k i. destruct (decide (k = key)) as [->|Hne].
    + rewrite lookup_insert_eq. intros [= <-]. done.
    + rewrite lookup_insert_ne by done. apply Hn.
Qed.

Lemma cache_asset_keeps index asset c :
  dom (asset_indices c) ⊆ dom (asset_indices (cache_asset index asset c).1).
Proof.
  unfold cache_asset.
  destruct (py_get asset "name" JNull) as [name|e]; [|done].
  destruct (py_truthy name); [|done].
  destruct (py_get asset "szDecimals" (JInt 0)) as [sz|e]; [|done].
  destruct (py_hash name) as [key|e]; [|done].
  simpl. rewrite dom_insert_L. set_solver.
Qed.

Lemma cache_assets_ok assets : ∀ index c,
  0 ≤ index → cache_ok c → cache_ok (cache_assets index assets c).1.
Proof.
  induction assets as [|a rest IH]; intros index c Hi Hc; [done|].
  simpl. pose proof (cache_asset_ok index a c Hi Hc) as H1.
  destruct (cache_asset index a c) as [c1 [[]|e]]; [|done].
  apply IH; [lia|done].
Qed.

Lemma cache_assets_keeps assets : ∀ index c,
  dom (asset_indices c) ⊆ dom (asset_indices (cache_assets index assets c).1).
Proof.
  induction assets as [|a rest IH]; intros index c; [done|].
  simpl. pose proof (cache_asset_keeps index a c) as H1.
  destruct (cache_asset index a c) as [c1 [[]|e]]; [|done].
  etrans; [exact H1|apply IH].
Qed.

Lemma get_meta_cache_ok data c :
  cache_ok c → cache_ok (get_meta_cache data c).1.
Proof.
  intros Hc. unfold get_meta_cache.
  destruct (py_contains data "universe") as [b|e]; [|done].
  destruct (if b then _ else _) as [assets|e]; [|done].
  pose proof (cache_assets_ok assets 0 c ltac:(lia) Hc) as [H1 H2].
  destruct (cache_assets 0 assets c) as [c1 [[]|e]]; by split.
Qed.

Lemma get_meta_cache_keeps data c :
  dom (asset_indices c) ⊆ dom (asset_indices (get_meta_cache data c).1).
Proof.
  unfold get_meta_cache.
  destruct (py_contains data "universe") as [b|e]; [|done].
  destruct (if b then _ else _) as [assets|e]; [|done].
  pose proof (cache_assets_keeps assets 0 c) as H1.
  by destruct (cache_assets 0 assets c) as [c1 [[]|e]].
Qed.

Lemma get_metas_ok datas : ∀ c, cache_ok c → cache_ok (get_metas datas c).
Proof.
  induction datas as [|d datas IH]; intros c Hc; [done|].
  apply IH. by apply get_meta_cache_ok.
Qed.

(** X16.  After any number of [get_meta] calls on a fresh client,
    whatever the venue answered and whether the calls returned or raised:
    [sz_decimals] and [asset_indices] have the same keys and every cached
    index is at least 0, so that the [-1] of
    [asset_indices.get(asset, -1)] is read exactly for the assets that
    are not cached; and one more call, whatever it gets, removes no asset
    from the cache: an asset the venue no longer lists keeps its old
    index. *)
Theorem unknown_asset_iff_not_cached datas asset data :
  let c := get_metas datas empty_cache in
  dom (sz_decimals c) = dom (asset_indices c)
  ∧ (∀ k i, asset_indices c !! k = Some i → 0 ≤ i)
  ∧ (asset_index c asset = -1 ↔ asset_indices c !! KStr asset = None)
  ∧ dom (asset_indices c) ⊆ dom (asset_indices (get_meta_cache data c).1).
Proof.
  intros c.
  assert (cache_ok c) as [Hk Hn].
  { apply get_metas_ok. split; [done|]. intros k i. simpl. by rewrite lookup_empty. }
  split; [done|]. split; [done|]. split; [|apply get_meta_cache_keeps].
  unfold asset_index.
  destruct (asset_indices c !! KStr asset) as [i|] eqn:Hi; simpl.
  - apply Hn in Hi. split; [lia|done].
  - done.
Qed.

(** ** A whole call through the facade *)

Lemma run_step s ev evs s1 r :
  step s ev = Some s1 → run s1 evs = r → run s (ev :: evs) = r.
Proof. intros H1 H2. rewrite run_cons, H1. exact H2. Qed.

(** A caller builds a request dict without an id and calls
    [send_request]; the reply for the assigned id arrives; the caller
    resumes. *)
Lemma call_round_trip s d0 f d resp :
  websocket (ws s) = Some Open → running (ws s) = true → handler s = true →
  d0 !! "id" = None →
  let c := request_counter (ws s) in
  let n := length (dicts s) in
  let t := length (tasks s) in
  is_reply f d → reply_id d = JInt (c + 1) →
  default (JObj ∅) (d !! "response") = JObj resp →
  py_eq_str (default JNull (resp !! "type")) "error" = false →
  ∃ s4,
    run s [ENewDict d0; ECall n; ERecv (Ok f); EWake t FutureDone] = Some s4
    ∧ wire s4 = wire s ++ [JObj (<["id" := JInt (c + 1)]> d0)]
    ∧ tasks s4 !! t = Some (Returned (JObj d))
    ∧ request_counter (ws s4) = c + 1
    ∧ pending_requests (ws s4) = delete (c + 1) (pending_requests (ws s)).
Proof.
  intros Hw Hr Hh Hid c n t Hf Hdd Hresp Hty.
  set (s1 := with_dicts (λ ds, ds ++ [d0]) s).
  assert (dicts s1 !! n = Some d0) as Hd0.
  { simpl. by rewrite lookup_app_r, Nat.sub_diag. }
  pose proof (start_open s1 n d0 Hd0 Hw Hr) as H1. simpl in H1. fold c in H1.
  assert (add_id (c + 1) d0 = <["id" := JInt (c + 1)]> d0) as Hadd.
  { unfold add_id. by rewrite Hid, bool_decide_eq_false_2 by (by intros [? ?]). }
  rewrite Hadd in H1. apply call_step in H1.
  set (F := length (futures s)) in *.
  match type of H1 with _ = Some ?x => set (s2 := x) in * end.
  assert (_process_message s2 f
          = Ok (with_futures <[F := FResult (JObj d)]> (pop (c + 1) s2), Resolved (c + 1)))
    as H2.
  { apply (process_reply_resolves s2 f d (c + 1) F); [done|by rewrite Hdd|..]; simpl.
    - apply lookup_insert_eq.
    - by rewrite lookup_app_r, Nat.sub_diag. }
  set (s3 := with_futures <[F := FResult (JObj d)]> (pop (c + 1) s2)) in *.
  assert (step s2 (ERecv (Ok f)) = Some s3) as H3.
  { change (step s2 (ERecv (Ok f)))
      with (if handler s then Some (_message_handler s2 (Ok f)) else None).
    rewrite Hh. unfold _message_handler. by rewrite H2. }
  assert (check_response (JObj d) = Ok (JObj d)) as Hck.
  { by rewrite (check_response_object d resp Hresp), Hty. }
  pose proof (wake_result s3 t (c + 1) F (JObj d)) as H4.
  rewrite Hck in H4. simpl in H4.
  eexists. split.
  { apply (run_step s (ENewDict d0) _ s1); [done|].
    apply (run_step s1 (ECall n) _ s2); [done|].
    apply run_two with (s1 := s3); [done|].
    apply H4.
    - by rewrite lookup_app_r, Nat.sub_diag.
    - apply list_lookup_insert_eq. rewrite length_app. simpl. unfold F. lia. }
  simpl. split; [done|]. split.
  { apply list_lookup_insert_eq. rewrite length_app. simpl. unfold t. lia. }
  split; [done|]. by rewrite delete_insert_eq.
Qed.

(** X17.  [send_ws_exchange_request(payload)] on an open connection, from
    the call to the return: the frame written to the socket is
    [{"method": "post", "request": {"type": "action", "payload": payload},
    "id": c + 1}] for the counter [c] at the call; when the reply for that
    id arrives with a response that is not of type ["error"], the call
    returns the response's ["payload"] ([{}] when it has none), and the
    table is left without the entry. *)
Theorem exchange_request_round_trip s payload f d resp :
  websocket (ws s) = Some Open → running (ws s) = true → handler s = true →
  let c := request_counter (ws s) in
  let t := length (tasks s) in
  is_reply f d → reply_id d = JInt (c + 1) →
  default (JObj ∅) (d !! "response") = JObj resp →
  py_eq_str (default JNull (resp !! "type")) "error" = false →
  ∃ s4,
    run s [ENewDict (exchange_request payload); ECall (length (dicts s));
           ERecv (Ok f); EWake t FutureDone] = Some s4
    ∧ wire s4 = wire s ++ [JObj {["id" := JInt (c + 1);
                                  "method" := JStr "post";
                                  "request" := JObj {["type" := JStr "action";
                                                      "payload" := payload]}]}]
    ∧ (∃ response, tasks s4 !! t = Some (Returned response)
         ∧ send_ws_exchange_request_return (Ok response)
           = Ok (default (JObj ∅) (resp !! "payload")))
    ∧ pending_requests (ws s4) !! (c + 1) = None.
Proof.
  intros Hw Hr Hh c t Hf Hdd Hresp Hty.
  destruct (call_round_trip s (exchange_request payload) f d resp)
    as (s4 & H1 & H2 & H3 & H4 & H5); try done.
  exists s4. split; [done|]. split; [done|]. split.
  - exists (JObj d). split; [done|]. simpl. by rewrite Hresp.
  - rewrite H5. apply lookup_delete_eq.
Qed.

Lemma exchange_request_round_trip_witness :
  ∃ s4,
    run (connected_with ∅)
      [ENewDict (exchange_request (JStr "order")); ECall 1%nat;
       ERecv (Ok (reply 1 {["response" := JObj {["type" := JStr "action";
                                                  "payload" := JStr "filled"]}]}));
       EWake 0%nat FutureDone] = Some s4
    ∧ (∃ response, tasks s4 !! 0%nat = Some (Returned response)
         ∧ send_ws_exchange_request_return (Ok response) = Ok (JStr "filled")).
Proof.
  destruct (exchange_request_round_trip (connected_with ∅) (JStr "order")
              (reply 1 {["response" := JObj {["type" := JStr "action";
                                              "payload" := JStr "filled"]}]})
              (<["id" := JInt 1]> {["response" := JObj {["type" := JStr "action";
                                                        "payload" := JStr "filled"]}]})
              {["type" := JStr "action"; "payload" := JStr "filled"]})
    as (s4 & H1 & _ & H3 & _).
  - done.
  - done.
  - done.
  - apply reply_is_reply.
  - by vm_compute.
  - by vm_compute.
  - by vm_compute.
  - exists s4. split; [exact H1|]. exact H3.
Defined.

(** * The receive loop and the socket *)

Lemma handler_finally_frame s :
  wire (handler_finally s) = wire s
  ∧ dicts (handler_finally s) = dicts s
  ∧ tasks (handler_finally s) = tasks s
  ∧ request_counter (ws (handler_finally s)) = request_counter (ws s)
  ∧ websocket (ws (handler_finally s)) = websocket (ws s)
  ∧ running (ws (handler_finally s)) = running (ws s)
  ∧ pending_requests (ws (handler_finally s)) ⊆ pending_requests (ws s).
Proof. repeat split; try done. simpl. apply map_empty_subseteq. Qed.

Lemma while_test_frame s :
  let s' := while_test s in
  wire s' = wire s
  ∧ dicts s' = dicts s
  ∧ tasks s' = tasks s
  ∧ request_counter (ws s') = request_counter (ws s)
  ∧ websocket (ws s') = websocket (ws s)
  ∧ running (ws s') = running (ws s)
  ∧ pending_requests (ws s') ⊆ pending_requests (ws s).
Proof.
  destruct (while_test_cases s) as [-> | ->]; [|apply handler_finally_frame].
  by repeat split.
Qed.

Lemma message_handler_frame s recv :
  let s' := _message_handler s recv in
  wire s' = wire s
  ∧ dicts s' = dicts s
  ∧ tasks s' = tasks s
  ∧ request_counter (ws s') = request_counter (ws s)
  ∧ websocket (ws s') = websocket (ws s)
  ∧ running (ws s') = running (ws s)
  ∧ pending_requests (ws s') ⊆ pending_requests (ws s).
Proof.
  unfold _message_handler.
  assert (∀ e, let s' := handler_except s e in
     wire s' = wire s ∧ dicts s' = dicts s ∧ tasks s' = tasks s
     ∧ request_counter (ws s') = request_counter (ws s)
     ∧ websocket (ws s') = websocket (ws s) ∧ running (ws s') = running (ws s)
     ∧ pending_requests (ws s') ⊆ pending_requests (ws s)) as Hex.
  { intros e. pose proof (handler_finally_frame s). pose proof (while_test_frame s).
    destruct e; simpl; try done. }
  destruct recv as [f|e]; [|apply Hex].
  destruct (process_message_effect s f) as (s1 & o & -> & He).
  destruct (while_test_frame s1) as (H1 & H2 & H3 & H4 & H5 & H6 & H7).
  rewrite H1, H2, H3, H4, H5, H6.
  destruct He; simpl in *; repeat split; try done;
    (etrans; [exact H7|]); simpl; apply delete_subseteq.
Qed.

(** X18.  One turn of the receive loop, whatever [recv] produces and
    whatever state the client is in: nothing is written to the socket, no
    request dict and no caller is touched, the counter and the connection
    attributes keep their values, and no entry is added to the table.
    All the loop ever does is remove entries and complete futures. *)
Theorem receive_loop_only_resolves s recv :
  let s' := _message_handler s recv in
  wire s' = wire s
  ∧ dicts s' = dicts s
  ∧ tasks s' = tasks s
  ∧ request_counter (ws s') = request_counter (ws s)
  ∧ websocket (ws s') = websocket (ws s)
  ∧ running (ws s') = running (ws s)
  ∧ pending_requests (ws s') ⊆ pending_requests (ws s).
Proof. apply message_handler_frame. Qed.

(** * [AsterDexClient] *)

Lemma socket_event_wire w ev : wire (default w (step w (event_of ev))) = wire w.
Proof.
  destruct ev as [|recv]; simpl.
  - by destruct (websocket (ws w)) as [[]|].
  - destruct (handler w); [|done]. simpl. apply message_handler_frame.
Qed.

Lemma streams_ok_wire m w a :
  streams_ok a → ws_client m a = Some w →
  ∀ w', wire w' = wire w → streams_ok (set_ws_client m (Some w') a).
Proof.
  intros [Hn (perp & spot & Hp & Hs & Hm & Hnd & Hb)] Hw w' Hwire.
  split; [by destruct m|].
  exists perp, spot.
  destruct m; simpl in *; unfold sent in *; simpl in *; rewrite Hw in *;
    rewrite ?Hwire; done.
Qed.

Lemma streams_ok_fresh m w a :
  streams_ok a → wire w = [] → streams_ok (set_ws_client m (Some w) a).
Proof.
  intros [Hn (perp & spot & Hp & Hs & Hm & Hnd & Hb)] Hwire.
  split; [by destruct m|].
  destruct m.
  - exists [], spot. unfold sent in *. simpl in *. rewrite Hwire.
    split; [done|]. split; [done|].
    split; [by apply Forall_app in Hm as [_ ?]|]. split.
    + rewrite fmap_app in Hnd. by apply NoDup_app in Hnd as (_ & _ & ?).
    + intros id Hid. apply Hb. rewrite fmap_app. apply elem_of_app. by right.
  - exists perp, []. unfold sent in *. simpl in *. rewrite Hwire.
    rewrite app_nil_r. split; [done|]. split; [done|].
    split; [by apply Forall_app in Hm as [? _]|]. split.
    + rewrite fmap_app in Hnd. by apply NoDup_app in Hnd as (? & _ & _).
    + intros id Hid. apply Hb. rewrite fmap_app. apply elem_of_app. by left.
Qed.

Lemma connect_ws_ok m failure a : streams_ok a → streams_ok (connect_ws m failure a).1.
Proof.
  intros Ha. unfold connect_ws. destruct (_require_api_key a); [done|].
  destruct failure; simpl; by apply streams_ok_fresh.
Qed.

Lemma send_stream_frame_ok m method streams a :
  method = "SUBSCRIBE"%string ∨ method = "UNSUBSCRIBE"%string →
  streams_ok a → streams_ok (send_stream_frame m method streams a).1.
Proof.
  intros Hmethod [Hn (perp & spot & Hp & Hs & Hm & Hnd & Hb)].
  unfold send_stream_frame.
  set (n := _next_subscription_id a) in *.
  assert (ws_client m (set_next_subscription_id (n + 1) a) = ws_client m a) as -> by (by destruct m).
  assert (∀ id, id ∈ (perp ++ spot).*2 → 1 ≤ id < n + 1) as Hb'.
  { intros id Hid. apply Hb in Hid. lia. }
  destruct (ws_client m a) as [w|] eqn:Hw; simpl.
  2: { split; [simpl; lia|]. by exists perp, spot. }
  unfold websocket_send. destruct (websocket (ws w)) as [[]|]; simpl.
  2,3: split; [destruct m; simpl; lia|]; exists perp, spot;
       destruct m; unfold sent in *; simpl in *; rewrite Hw in *; done.
  assert (n ∉ (perp ++ spot).*2) as Hfresh.
  { intros Hin. apply Hb in Hin. lia. }
  split; [destruct m; simpl; lia|].
  destruct m; unfold sent in *; simpl in *; rewrite Hw in *.
  - exists (perp ++ [(method, streams, n)]), spot.
    split; [by rewrite fmap_app, Hp|]. split; [done|].
    split.
    { apply Forall_app in Hm as [Hm1 Hm2]. rewrite !Forall_app.
      split; [split; [done|]|done]. apply Forall_singleton. exact Hmethod. }
    rewrite !fmap_app in *. simpl.
    split.
    + rewrite <- app_assoc. apply NoDup_app in Hnd as (H1 & H2 & H3).
      apply NoDup_app. split; [done|]. split.
      * intros x Hx Hx'. apply elem_of_cons in Hx' as [Hx'|Hx']; [|by eapply H2].
        subst x. apply Hfresh. apply elem_of_app. by left.
      * apply NoDup_cons. split; [|done]. intros Hin. apply Hfresh.
        apply elem_of_app. by right.
    + intros id Hid. rewrite !elem_of_app in Hid.
      destruct Hid as [[Hid|Hid]|Hid].
      * apply Hb'. apply elem_of_app. by left.
      * apply list_elem_of_singleton in Hid. lia.
      * apply Hb'. apply elem_of_app. by right.
  - exists perp, (spot ++ [(method, streams, n)]).
    split; [done|]. split; [by rewrite fmap_app, Hs|].
    split.
    { apply Forall_app in Hm as [Hm1 Hm2]. rewrite !Forall_app.
      split; [done|split; [done|]]. apply Forall_singleton. exact Hmethod. }
    rewrite !fmap_app in *. simpl.
    split.
    + rewrite app_assoc. apply NoDup_app. split; [done|]. split.
      * intros x Hx Hx'. apply list_elem_of_singleton in Hx'. subst x. by apply Hfresh.
      * apply NoDup_singleton.
    + intros id Hid. rewrite !elem_of_app in Hid.
      destruct Hid as [Hid|[Hid|Hid]].
      * apply Hb'. apply elem_of_app. by left.
      * apply Hb'. apply elem_of_app. by right.
      * apply list_elem_of_singleton in Hid. lia.
Qed.

Lemma aster_step_ok a op : streams_ok a → streams_ok (aster_step a op).
Proof.
  intros Ha. destruct op as [m failure|m streams failure|m streams| |key|m ev]; simpl.
  - by apply connect_ws_ok.
  - unfold subscribe_streams.
    destruct (ws_client m a) as [w|] eqn:Hw.
    + apply send_stream_frame_ok; [by left|done].
    + pose proof (connect_ws_ok m failure a Ha) as H1.
      destruct (connect_ws m failure a) as [a1 [e|]]; [done|].
      apply send_stream_frame_ok; [by left|done].
  - unfold unsubscribe_streams.
    destruct (ws_client m a) as [w|] eqn:Hw; [|done].
    case_bool_decide; [|done]. apply send_stream_frame_ok; [by right|done].
  - destruct Ha as [Hn (perp & spot & Hp & Hs & Hm & Hnd & Hb)].
    split; [done|]. exists perp, spot. unfold sent in *. simpl in *.
    split; [|split; [|done]].
    + rewrite <- Hp. destruct (perp_ws_client a) as [w|]; [|done]. simpl.
      unfold disconnect. simpl. by destruct (websocket (ws w)).
    + rewrite <- Hs. destruct (spot_ws_client a) as [w|]; [|done]. simpl.
      unfold disconnect. simpl. by destruct (websocket (ws w)).
  - destruct Ha as [Hn Hs]. by split.
  - destruct (ws_client m a) as [w|] eqn:Hw; [|done].
    eapply streams_ok_wire; [done..|apply socket_event_wire].
Qed.

Lemma aster_run_ok ops : ∀ a, streams_ok a → streams_ok (aster_run a ops).
Proof.
  induction ops as [|op ops IH]; intros a Ha; [done|].
  apply IH. by apply aster_step_ok.
Qed.

(** X19.  One [AsterDexClient], any sequence of its WebSocket calls
    (each awaited before the next) and of events on its sockets.  Every
    frame on the perp and on the spot socket is
    [{"method": m, "params": streams, "id": id}] with [m] one of
    ["SUBSCRIBE"] and ["UNSUBSCRIBE"]; the ids in these frames are
    pairwise distinct, across both sockets and both methods; and each of
    them lies between 1 and the id the next frame will get. *)
Theorem stream_ids_distinct key ops :
  let a := aster_run (AsterDexClient__init__ key) ops in
  ∃ perp spot : list (string * json * Z),
    sent Perp a
    = (λ f, JObj {["method" := JStr f.1.1; "params" := f.1.2; "id" := JInt f.2]})
        <$> perp
    ∧ sent Spot a
      = (λ f, JObj {["method" := JStr f.1.1; "params" := f.1.2; "id" := JInt f.2]})
          <$> spot
    ∧ Forall (λ f, f.1.1 = "SUBSCRIBE"%string ∨ f.1.1 = "UNSUBSCRIBE"%string)
             (perp ++ spot)
    ∧ NoDup ((perp ++ spot).*2)
    ∧ ∀ id, id ∈ (perp ++ spot).*2 → 1 ≤ id < _next_subscription_id a.
Proof.
  intros a.
  assert (streams_ok a) as [_ H]; [|exact H].
  apply aster_run_ok. split; [done|]. exists [], [].
  split; [done|]. split; [done|]. split; [constructor|]. split; [constructor|].
  intros id Hid. by apply elem_of_nil in Hid.
Qed.

(** X20.  [subscribe_perp_streams] (or [..._spot_...]) connects only
    when the client has no socket client yet.  If that first [connect]
    fails, the call raises the [APIError] of [connect] without using up
    an id, but the socket client it has created stays in place.  From
    then on every subscribe call on that market skips the connection
    step, uses up an id and fails with the [AttributeError] of
    [None.send], even when a connection attempt would now succeed. *)
Theorem subscribe_never_reconnects m streams err a :
  ws_client m a = None → _require_api_key a = None →
  let a1 := (subscribe_streams m streams (Some err) a).1 in
  (subscribe_streams m streams (Some err) a).2
  = Some (Exn (APIError [Lit "WebSocket connection failed: "; Lit err]))
  ∧ _next_subscription_id a1 = _next_subscription_id a
  ∧ ws_client m a1 = Some initial
  ∧ ∀ id streams' failure',
      subscribe_streams m streams' failure' (set_next_subscription_id id a1)
      = (set_next_subscription_id (id + 1) a1, Some (Exn AttributeError)).
Proof.
  intros Hw Hk. unfold subscribe_streams, connect_ws. rewrite Hw, Hk. simpl.
  split; [done|]. split; [by destruct m|]. split; [by destruct m|].
  intros id streams' failure'. by destruct m.
Qed.

Lemma subscribe_never_reconnects_witness :
  let a := AsterDexClient__init__ (Some "key"%string) in
  let a1 := (subscribe_streams Perp (JArr [JStr "btcusdt@aggTrade"]) (Some "refused"%string) a).1 in
  _next_subscription_id a1 = 1
  ∧ subscribe_streams Perp (JArr [JStr "btcusdt@aggTrade"]) None a1
    = (set_next_subscription_id 2 a1, Some (Exn AttributeError)).
Proof.
  intros a a1.
  destruct (subscribe_never_reconnects Perp (JArr [JStr "btcusdt@aggTrade"])
              "refused"%string a eq_refl eq_refl) as (_ & H2 & _ & H4).
  split; [exact H2|]. exact (H4 1 (JArr [JStr "btcusdt@aggTrade"]) None).
Defined.

(** X21.  After [disconnect_ws] on a market that had a connection, both
    [subscribe] and [unsubscribe] on it build their frame, use up an id
    and fail with [ConnectionClosed]; nothing is sent and subscribe does
    not connect again. *)
Theorem streams_after_disconnect m a w streams failure :
  ws_client m a = Some w → is_Some (websocket (ws w)) →
  let a1 := disconnect_ws a in
  let a2 := set_next_subscription_id (_next_subscription_id a + 1) a1 in
  subscribe_streams m streams failure a1 = (a2, Some (Exn ConnectionClosed))
  ∧ unsubscribe_streams m streams a1 = (a2, Some (Exn ConnectionClosed))
  ∧ sent m a2 = sent m a.
Proof.
  intros Hw [c Hc].
  assert (disconnect w = with_ws (set_websocket (Some Closed)) (with_ws (set_running false) w))
    as Hd.
  { unfold disconnect. simpl. by rewrite Hc. }
  destruct a as [k p s n]. destruct m; simpl in *; subst;
    unfold subscribe_streams, unsubscribe_streams, send_stream_frame,
      disconnect_ws, set_next_subscription_id, sent; simpl;
    rewrite Hd; simpl; done.
Qed.

Lemma streams_after_disconnect_witness :
  let a := (connect_ws Spot None (AsterDexClient__init__ (Some "key"%string))).1 in
  (unsubscribe_streams Spot (JArr []) (disconnect_ws a)).2 = Some (Exn ConnectionClosed).
Proof.
  intros a.
  destruct (streams_after_disconnect Spot a
              (connect initial None).1 (JArr []) None eq_refl)
    as (_ & H2 & _).
  - by eexists.
  - by rewrite H2.
Defined.

(** X22.  Without a HyperETH API key (none, or the empty string) and
    as long as [set_api_key] is not called, no sequence of WebSocket
    calls changes the client at all: connecting and subscribing raise
    [ValidationError] before a socket client is created or an id is used
    up, unsubscribing and disconnecting return without doing anything. *)
Theorem no_key_no_socket key ops :
  is_Some (_require_api_key (AsterDexClient__init__ key)) →
  forallb (λ op, negb (is_set_api_key op)) ops = true →
  aster_run (AsterDexClient__init__ key) ops = AsterDexClient__init__ key
  ∧ ∀ m streams failure,
      (subscribe_streams m streams failure (AsterDexClient__init__ key)).2
      = Some (ValidationError "HyperETH API key is required for this operation").
Proof.
  intros [e He] Hops.
  assert (_require_api_key (AsterDexClient__init__ key)
          = Some (ValidationError "HyperETH API key is required for this operation")) as Hk.
  { unfold _require_api_key in *. simpl in *.
    destruct key as [k|]; [|done]. by case_bool_decide. }
  split.
  - induction ops as [|op ops IH]; [done|].
    simpl in Hops. apply andb_true_iff in Hops as [Hop Hops].
    unfold aster_run. simpl.
    assert (aster_step (AsterDexClient__init__ key) op = AsterDexClient__init__ key) as ->.
    { destruct op as [m failure|m streams failure|m streams| |k|m ev]; simpl in *.
      - unfold connect_ws. by rewrite Hk.
      - unfold subscribe_streams, connect_ws. destruct m; simpl; by rewrite Hk.
      - by destruct m.
      - done.
      - done.
      - by destruct m. }
    by apply IH.
  - intros m streams failure. unfold subscribe_streams, connect_ws.
    destruct m; simpl; by rewrite Hk.
Qed.

Lemma no_key_no_socket_witness :
  aster_run (AsterDexClient__init__ None)
    [ASubscribe Perp (JArr [JStr "btcusdt@depth"]) None; AUnsubscribe Spot (JArr []);
     AConnect Spot None; ADisconnect]
  = AsterDexClient__init__ None.
Proof.
  destruct (no_key_no_socket None
    [ASubscribe Perp (JArr [JStr "btcusdt@depth"]) None; AUnsubscribe Spot (JArr []);
     AConnect Spot None; ADisconnect]) as [H _].
  - by eexists.
  - done.
  - exact H.
Defined.

(** * [HyperETHClient.submit_trade_intent_ws] *)

(** X23.  A HyperLiquid trade intent (named by the enum member or by
    the string ["hyperliquid"]) that lacks one of [action],
    [agent_wallet], [nonce]: the call raises an [APIError], not the
    [ValidationError] it builds, with the message ["Failed to submit
    trade intent via WS: HyperLiquid trade intent requires 'action',
    'agent_wallet', and 'nonce'"], and the client is left as it was: no
    request dict, no id, nothing sent. *)
Theorem intent_missing_key lib s exchange kwargs key :
  is_hyperliquid exchange = true →
  key ∈ ["action"; "agent_wallet"; "nonce"]%string → kwargs !! key = None →
  submit_trade_intent_ws_start lib s exchange kwargs
  = Some (s, Raised (APIError
       [Lit "Failed to submit trade intent via WS: ";
        Lit "HyperLiquid trade intent requires 'action', 'agent_wallet', and 'nonce'"])).
Proof.
  intros Hx Hkey Hnone. unfold submit_trade_intent_ws_start, intent_payload.
  rewrite Hx.
  apply elem_of_cons in Hkey as [->|Hkey];
    [|apply elem_of_cons in Hkey as [->|Hkey];
      [|apply list_elem_of_singleton in Hkey as ->]].
  all: rewrite Hnone.
  all: by destruct (kwargs !! "action"), (kwargs !! "agent_wallet").
Qed.

Lemma intent_missing_key_witness :
  submit_trade_intent_ws_start (λ _, []) (connected_with ∅) (Name "hyperliquid")
    {["action" := JStr "buy"; "nonce" := JInt 7]}
  = Some (connected_with ∅, Raised (APIError
       [Lit "Failed to submit trade intent via WS: ";
        Lit "HyperLiquid trade intent requires 'action', 'agent_wallet', and 'nonce'"])).
Proof.
  apply (intent_missing_key _ _ _ _ "agent_wallet"%string).
  - done.
  - apply elem_of_cons. right. apply elem_of_cons. by left.
  - by vm_compute.
Defined.

(** X24.  What a trade intent sends on an open connection.  For
    HyperLiquid the payload holds exactly [hl_action], [hl_agent_wallet]
    and [nonce], taken from the keyword arguments [action],
    [agent_wallet] and [nonce]; any other keyword argument is dropped.
    For every other exchange, known or not, the keyword arguments are the
    payload as they are.  The frame is [{"method": "post", "request":
    {"type": "trade_intent", "payload": payload}, "id": c + 1}] and the
    call waits for the reply to id [c + 1]. *)
Theorem intent_frame lib s exchange kwargs :
  websocket (ws s) = Some Open → running (ws s) = true →
  (is_hyperliquid exchange = true →
   is_Some (kwargs !! "action") ∧ is_Some (kwargs !! "agent_wallet")
   ∧ is_Some (kwargs !! "nonce")) →
  let c := request_counter (ws s) in
  ∃ s' payload,
    submit_trade_intent_ws_start lib s exchange kwargs
    = Some (s', Waiting (c + 1) (length (futures s)))
    ∧ wire s' = wire s ++ [JObj {["id" := JInt (c + 1);
                                  "method" := JStr "post";
                                  "request" := JObj {["type" := JStr "trade_intent";
                                                      "payload" := JObj payload]}]}]
    ∧ (if is_hyperliquid exchange
       then ∀ k, payload !! k
                 = if bool_decide (k = "hl_action"%string) then kwargs !! "action"
                   else if bool_decide (k = "hl_agent_wallet"%string)
                        then kwargs !! "agent_wallet"
                   else if bool_decide (k = "nonce"%string) then kwargs !! "nonce"
                   else None
       else payload = kwargs).
Proof.
  intros Hw Hr Hkeys c.
  assert (∃ payload, intent_payload exchange kwargs = Payload (JObj payload)
            ∧ (if is_hyperliquid exchange
               then ∀ k, payload !! k
                 = if bool_decide (k = "hl_action"%string) then kwargs !! "action"
                   else if bool_decide (k = "hl_agent_wallet"%string)
                        then kwargs !! "agent_wallet"
                   else if bool_decide (k = "nonce"%string) then kwargs !! "nonce"
                   else None
               else payload = kwargs)) as (payload & Hp & Hshape).
  { unfold intent_payload. destruct (is_hyperliquid exchange); [|by eexists].
    destruct Hkeys as ([a Ha] & [w Hwal] & [n Hn]); [done|].
    rewrite Ha, Hwal, Hn. eexists. split; [done|].
    intros k. repeat case_bool_decide; subst; by simplify_map_eq. }
  set (d0 := intent_request (JObj payload)).
  set (s1 := with_dicts (λ ds, ds ++ [d0]) s).
  assert (dicts s1 !! length (dicts s) = Some d0) as Hd0.
  { simpl. by rewrite lookup_app_r, Nat.sub_diag. }
  pose proof (start_open s1 _ d0 Hd0 Hw Hr) as H1. simpl in H1. fold c in H1.
  assert (add_id (c + 1) d0 = <["id" := JInt (c + 1)]> d0) as Hadd by done.
  rewrite Hadd in H1.
  eexists _, payload. split; [|split; [|exact Hshape]].
  - unfold submit_trade_intent_ws_start. rewrite Hp. fold d0 s1. rewrite H1. done.
  - done.
Qed.

Lemma intent_frame_witness :
  ∃ s',
    submit_trade_intent_ws_start (λ _, []) (connected_with ∅) (Member ASTERDEX)
      {["symbol" := JStr "BTCUSDT"]}
    = Some (s', Waiting 1 0)
    ∧ wire s' = [JObj {["id" := JInt 1;
                        "method" := JStr "post";
                        "request" := JObj {["type" := JStr "trade_intent";
                                            "payload" := JObj {["symbol" := JStr "BTCUSDT"]}]}]}].
Proof.
  destruct (intent_frame (λ _, []) (connected_with ∅) (Member ASTERDEX)
              {["symbol" := JStr "BTCUSDT"]}) as (s' & payload & H1 & H2 & H3).
  - done.
  - done.
  - done.
  - exists s'. split; [exact H1|]. simpl in H3. by subst payload.
Defined.

Lemma intent_exit_cases lib t e :
  intent_exit lib t = Raised e → intent_failure e ∨ t = Raised CancelledError.
Proof.
  destruct t as [k fut|response|e0]; simpl; [done|..].
  - destruct response as [| | | | | |m]; simpl;
      try (intros [= <-]; left; by eexists).
    destruct (default (JObj ∅) (m !! "response")); simpl;
      try (intros [= <-]; left; by eexists); done.
  - intros [= <-]. destruct e0; simpl; first [by right | left; by eexists].
Qed.


(** X25.  Whatever goes wrong in [submit_trade_intent_ws] reaches the
    caller as an [APIError] whose message starts with ["Failed to submit
    trade intent via WS: "]: an invalid intent, a refused or failed send,
    a timeout, a closed connection, an error reply, a reply whose
    ["response"] is not an object.  The one exception is the cancellation
    of the caller's task, which passes through as [CancelledError]. *)
Theorem intent_errors_wrapped lib s exchange kwargs k fut w s' e :
  submit_trade_intent_ws_start lib s exchange kwargs = Some (s', Raised e)
  ∨ submit_trade_intent_ws_resume lib s k fut w = Some (s', Raised e) →
  intent_failure e ∨ e = CancelledError.
Proof.
  assert (∀ t, intent_exit lib t = Raised e → intent_failure e ∨ e = CancelledError) as Hexit.
  { intros t Ht. destruct (intent_exit_cases lib t e Ht) as [?| ->]; [by left|].
    simpl in Ht. right. by simplify_eq. }
  intros [H|H].
  - unfold submit_trade_intent_ws_start in H.
    destruct (intent_payload exchange kwargs) as [payload|msg].
    + destruct (send_request_start _ _) as [[s2 t]|]; simplify_eq/=. eauto.
    + simplify_eq/=. left. by eexists.
  - unfold submit_trade_intent_ws_resume in H.
    destruct (send_request_resume s k fut w) as [[s2 t]|]; simplify_eq/=. eauto.
Qed.

Lemma intent_errors_wrapped_witness :
  ∃ e,
    submit_trade_intent_ws_start (λ _, []) initial (Name "asterdex") ∅
    = Some (with_dicts (λ ds, ds ++ [intent_request (JObj ∅)]) initial, Raised e)
    ∧ (intent_failure e ∨ e = CancelledError).
Proof.
  eexists. split; [reflexivity|].
  apply (intent_errors_wrapped (λ _, []) initial (Name "asterdex") ∅ 0 0%nat FutureDone
           (with_dicts (λ ds, ds ++ [intent_request (JObj ∅)]) initial)).
  left. reflexivity.
Defined.

(** X26.  An error reply to a trade intent: the caller gets an
    [APIError] with both prefixes, ["Failed to submit trade intent via
    WS: API Error: "] followed by the reply's ["payload"] (["Unknown
    error"] if it has none), and the table entry is gone. *)
Theorem intent_error_reply lib other s k fut d resp :
  futures s !! fut = Some (FResult (JObj d)) →
  default (JObj ∅) (d !! "response") = JObj resp →
  py_eq_str (default JNull (resp !! "type")) "error" = true →
  ∃ msg,
    submit_trade_intent_ws_resume lib s k fut FutureDone
    = Some (pop k s, Raised (APIError msg))
    ∧ render other msg
      = ("Failed to submit trade intent via WS: API Error: "
         +:+ py_str other (default (JStr "Unknown error") (resp !! "payload")))%string.
Proof.
  intros Hf Hresp Hty. unfold submit_trade_intent_ws_resume, send_request_resume, wait_for.
  rewrite Hf. simpl.
  pose proof (check_response_object d resp Hresp) as Hck. rewrite Hty in Hck.
  change (py_get (JObj d) "response" (JObj ∅) ≫= _) with (check_response (JObj d)).
  rewrite Hck. simpl. eexists. split; [done|].
  unfold render. simpl. by rewrite append_empty_r.
Qed.

Lemma intent_error_reply_witness :
  ∃ msg,
    submit_trade_intent_ws_resume (λ _, [])
      (mkWorld (mkClient (Some Open) true 1 ∅) [FResult (JObj margin_error)] [] [] true [])
      1 0%nat FutureDone
    = Some (mkWorld (mkClient (Some Open) true 1 ∅) [FResult (JObj margin_error)] [] [] true [],
            Raised (APIError msg)).
Proof.
  destruct (intent_error_reply (λ _, []) (λ _, ""%string)
              (mkWorld (mkClient (Some Open) true 1 ∅) [FResult (JObj margin_error)] [] [] true [])
              1 0%nat margin_error
              (default ∅ (match margin_error !! "response" with Some (JObj r) => Some r | _ => None end)))
    as (msg & H1 & _).
  - done.
  - by vm_compute.
  - by vm_compute.
  - exists msg. exact H1.
Defined.

(** * [HyperLiquidClient]: the channel subscriptions *)

(** X27.  The channel methods check only whether the socket client has
    a connection object, not whether it is running.  After [disconnect],
    on a client that had a connection they go on to [send] and fail with
    [ConnectionClosed]; on a client that never connected they raise
    [APIError("WebSocket not connected")].  Either way the client is left
    as [disconnect] left it. *)
Theorem channel_methods_check_socket_only s channel params :
  let s' := disconnect s in
  let e := match websocket (ws s) with
           | Some _ => ConnectionClosed
           | None => APIError [Lit "WebSocket not connected"]
           end in
  subscribe_to_channel s' channel params = (s', Raise e)
  ∧ unsubscribe_from_channel s' channel params = (s', Raise e).
Proof.
  destruct s as [[[c|] r n p] fs ds wi h ts]; by split.
Qed.

(** X28.  The [subscription] object of a subscribe or unsubscribe frame:
    every key of [params] is in it with the value [params] gives, also
    the key ["type"], which then replaces the channel; otherwise
    ["type"] is the channel; and there is nothing else in it.  The empty
    [params] dict and [None] give the same frame, and the subscribe and
    the unsubscribe frame differ in ["method"] only. *)
Theorem control_frame_fields method channel params :
  ∃ sub,
    control_frame method channel params
    = JObj {["method" := JStr method; "subscription" := JObj sub]}
    ∧ control_frame "unsubscribe" channel params
      = JObj {["method" := JStr "unsubscribe"; "subscription" := JObj sub]}
    ∧ ∀ k, sub !! k
           = match default ∅ params !! k with
             | Some v => Some v
             | None => if bool_decide (k = "type"%string) then Some (JStr channel) else None
             end.
Proof.
  unfold control_frame. destruct (truthy params) eqn:Ht.
  - eexists. split; [done|]. split; [done|]. intros k.
    rewrite lookup_union. destruct (default ∅ params !! k) as [v|]; simpl.
    + by destruct (_ !! k).
    + case_bool_decide; subst.
      * by rewrite lookup_singleton_eq.
      * by rewrite lookup_singleton_ne.
  - eexists. split; [done|]. split; [done|]. intros k.
    assert (default ∅ params = ∅) as ->.
    { destruct params as [p|]; [|done]. simpl in *.
      apply negb_false_iff, bool_decide_eq_true in Ht. by apply map_size_empty_iff. }
    rewrite lookup_empty. case_bool_decide; subst.
    + by rewrite lookup_singleton_eq.
    + by rewrite lookup_singleton_ne.
Qed.

(** * [HTTPClient] *)

Lemma rstrip_slash s : rstrip slash (s +:+ "/") = rstrip slash s.
Proof.
  induction s as [|a s IH]; [done|].
  change (match rstrip slash (s +:+ "/") with
          | EmptyString => if Ascii.eqb a slash then EmptyString else String a EmptyString
          | r => String a r
          end
          = match rstrip slash s with
            | EmptyString => if Ascii.eqb a slash then EmptyString else String a EmptyString
            | r => String a r
            end).
  by rewrite IH.
Qed.

Lemma rstrip_no_slash s : rstrip slash (rstrip slash s) = rstrip slash s.
Proof.
  induction s as [|a s IH]; [done|]. simpl.
  destruct (rstrip slash s) as [|b r] eqn:E.
  - destruct (Ascii.eqb a slash) eqn:Ea; [done|]. simpl. by rewrite Ea.
  - simpl in *. by rewrite IH.
Qed.

(** X29.  The URL of an HTTP request does not depend on how the base URL
    ends or the endpoint starts as far as slashes go: a trailing slash of
    the base URL and a leading slash of the endpoint are dropped, and
    exactly one slash is put between the two.  Hence an AsterDex request
    without query parameters goes to
    [<base>/<api_type>/<endpoint>], for an [api_type] such as ["fapi"]
    that does not begin with a slash. *)
Theorem request_url_slashes base_url endpoint api_type :
  api_type ≠ ""%string → lstrip slash api_type = api_type →
  let b := HTTPClient_base_url base_url in
  request_url (HTTPClient_base_url (base_url +:+ "/")) endpoint = request_url b endpoint
  ∧ request_url b ("/" +:+ endpoint) = request_url b endpoint
  ∧ HTTPClient_base_url b = b
  ∧ request_url b (full_endpoint api_type endpoint)
    = b +:+ "/" +:+ api_type +:+ "/" +:+ lstrip slash endpoint.
Proof.
  intros Hne Hstrip b. unfold request_url, HTTPClient_base_url in *.
  split; [by rewrite rstrip_slash|]. split; [done|]. split; [apply rstrip_no_slash|].
  f_equal. f_equal. unfold full_endpoint.
  change (lstrip slash (api_type +:+ "/" +:+ lstrip slash endpoint)
          = api_type +:+ "/" +:+ lstrip slash endpoint).
  destruct api_type as [|a t]; [done|].
  simpl in Hstrip. destruct (Ascii.eqb a slash) eqn:Ea.
  - exfalso. assert (String.length (lstrip slash t) ≤ String.length t)%nat as Hlen.
    { clear. induction t as [|c t IH]; simpl; [lia|]. destruct (Ascii.eqb c slash); simpl; lia. }
    rewrite Hstrip in Hlen. simpl in Hlen. lia.
  - change (lstrip slash (String a (t +:+ "/" +:+ lstrip slash endpoint))
            = String a (t +:+ "/" +:+ lstrip slash endpoint)).
    simpl. by rewrite Ea.
Qed.

Lemma request_url_slashes_witness :
  request_url (HTTPClient_base_url "https://api.hypereth.io/v1/aster/")
    (full_endpoint "fapi" "/v1/exchangeInfo")
  = "https://api.hypereth.io/v1/aster/fapi/v1/exchangeInfo"%string.
Proof.
  destruct (request_url_slashes "https://api.hypereth.io/v1/aster/" "/v1/exchangeInfo" "fapi")
    as (_ & _ & _ & H); [done|done|].
  rewrite H. by vm_compute.
Defined.
